(** * media_cleanup.py: retention cleanup of daily series

    A shallow embedding of [src/media_cleanup.py] and the properties its
    specification states about it.

    Python objects decoded from JSON and YAML are values of [pyval]; dicts
    are finite maps with string keys.  Code that can raise returns a [res];
    code that talks to Sonarr, Plex, the logger or the file system runs in
    the monad [M], which threads a [state] (the trace of what was done so
    far and the directory trees on disk) and can raise.

    Scope of the model.
    - Strings hold ASCII text; floats, bytes and YAML timestamps are not
      values of the model.
    - A response of the HTTP client is either a transport failure or a
      status code with a JSON body; a body that is not JSON is not modelled.
    - The worker pool runs its tasks one after the other in submission
      order (the schedule of a pool with one worker); the interleaving of
      requests of different workers is not modelled.
    - The file system holds regular files and directories; symbolic links
      are not modelled.  [_setup_logging] is not modelled: the log sink is
      the trace. *)

From stdpp Require Import gmap strings list fin_maps.
From Stdlib Require Import ZArith Ascii String Lia.

Set Warnings "-register-all".
Local Open Scope string_scope.
Local Open Scope Z_scope.

(** ** Python values and exceptions *)

Inductive pyval :=
| PNone
| PBool (b : bool)
| PInt (z : Z)
| PStr (s : string)
| PList (l : list pyval)
| PDict (d : gmap string pyval).

Inductive exn :=
| KeyError (key : string)
| TypeError
| ValueError
| AttributeError
| OverflowError
| OSError (path : string)
| YAMLError
| ConnectionError (detail : string)   (* requests.exceptions.RequestException *)
| HTTPError (status : Z)              (* raised by raise_for_status; a RequestException *)
| PlexError (detail : string).        (* raised by the plexapi client *)

(** [except requests.exceptions.RequestException] *)
Definition is_RequestException (e : exn) : bool :=
  match e with
  | ConnectionError _ | HTTPError _ => true
  | _ => false
  end.

(** [except Exception] *)
Definition is_Exception (e : exn) : bool := true.

(** The result of evaluating an expression. *)
Inductive res (A : Type) :=
| Ret (a : A)
| Raise (e : exn).
Arguments Ret {A} a.
Arguments Raise {A} e.

Global Instance res_ret : MRet res := fun A a => Ret a.
Global Instance res_bind : MBind res := fun A B f m =>
  match m with
  | Ret a => f a
  | Raise e => Raise e
  end.

(** ** Python operations on values *)

(** Truth value of an object, as tested by [if], [and], [not]. *)
Definition truthy (v : pyval) : bool :=
  match v with
  | PNone => false
  | PBool b => b
  | PInt z => negb (z =? 0)
  | PStr s => negb (String.eqb s "")
  | PList l => match l with [] => false | _ => true end
  | PDict d => match map_to_list d with [] => false | _ => true end
  end.

(** [v[k]] for a string key [k]. *)
Definition subscript (v : pyval) (k : string) : res pyval :=
  match v with
  | PDict d => match d !! k with
               | Some x => Ret x
               | None => Raise (KeyError k)
               end
  | _ => Raise TypeError
  end.

(** [v.get(k, dflt)] *)
Definition dict_get (v : pyval) (k : string) (dflt : pyval) : res pyval :=
  match v with
  | PDict d => Ret (default dflt (d !! k))
  | _ => Raise AttributeError
  end.

(** [v[k] = x] *)
Definition setitem (v : pyval) (k : string) (x : pyval) : res pyval :=
  match v with
  | PDict d => Ret (PDict (<[k := x]> d))
  | _ => Raise TypeError
  end.

(** [v == s] for a string literal [s]. *)
Definition eq_str (v : pyval) (s : string) : bool :=
  match v with
  | PStr t => String.eqb t s
  | _ => false
  end.

(** The characters of a string, each as a string of length one. *)
Fixpoint chars (s : string) : list pyval :=
  match s with
  | EmptyString => []
  | String c r => PStr (String c EmptyString) :: chars r
  end.

(** [for x in v]: the elements iterated over.  The keys of a dict come in
    the map's own order, not in Python's insertion order. *)
Definition iterate (v : pyval) : res (list pyval) :=
  match v with
  | PList l => Ret l
  | PDict d => Ret (PStr <$> (map_to_list d).*1)
  | PStr s => Ret (chars s)
  | _ => Raise TypeError
  end.

(** [s in t] on strings: [s] occurs in [t]. *)
Fixpoint is_prefix (s t : string) : bool :=
  match s, t with
  | EmptyString, _ => true
  | String a s', String b t' => Ascii.eqb a b && is_prefix s' t'
  | _, _ => false
  end.

Fixpoint is_substring (s t : string) : bool :=
  is_prefix s t ||
  match t with
  | EmptyString => false
  | String _ t' => is_substring s t'
  end.

(** [k in v] for a string literal [k]. *)
Definition contains (k : string) (v : pyval) : res bool :=
  match v with
  | PDict d => Ret (bool_decide (is_Some (d !! k)))
  | PList l => Ret (existsb (fun x => eq_str x k) l)
  | PStr s => Ret (is_substring k s)
  | _ => Raise TypeError
  end.

(** [[x for x in l if cond x]] where evaluating [cond] can raise. *)
Fixpoint comprehension (cond : pyval -> res bool) (l : list pyval) : res (list pyval) :=
  match l with
  | [] => Ret []
  | x :: rest =>
      keep ← cond x;
      tail ← comprehension cond rest;
      Ret (if keep : bool then x :: tail else tail)
  end.

(** ** datetime *)

(** A naive [datetime]. *)
Record datetime := mkdatetime {
  year : Z; month : Z; day : Z;
  hour : Z; minute : Z; second : Z; microsecond : Z
}.

(** [a < b] on naive datetimes: the fields compared in order. *)
Fixpoint lex_lt (a b : list Z) : bool :=
  match a, b with
  | x :: a', y :: b' => (x <? y) || ((x =? y) && lex_lt a' b')
  | _, _ => false
  end.

Definition fields (t : datetime) : list Z :=
  [year t; month t; day t; hour t; minute t; second t; microsecond t].

Definition datetime_lt (a b : datetime) : bool := lex_lt (fields a) (fields b).

Definition _is_leap (y : Z) : bool :=
  (y mod 4 =? 0) && (negb (y mod 100 =? 0) || (y mod 400 =? 0)).

Definition _DAYS_IN_MONTH : list Z := [31; 28; 31; 30; 31; 30; 31; 31; 30; 31; 30; 31].
Definition _DAYS_BEFORE_MONTH : list Z :=
  [0; 31; 59; 90; 120; 151; 181; 212; 243; 273; 304; 334].

(** Both tables are indexed by the month, from 1. *)
Definition month_entry (table : list Z) (m : Z) : Z :=
  nth (Z.to_nat (m - 1)) table 0.

Definition _days_before_year (y : Z) : Z :=
  let y1 := y - 1 in y1 * 365 + y1 / 4 - y1 / 100 + y1 / 400.

Definition _days_in_month (y m : Z) : Z :=
  if (m =? 2) && _is_leap y then 29 else month_entry _DAYS_IN_MONTH m.

Definition _days_before_month (y m : Z) : Z :=
  month_entry _DAYS_BEFORE_MONTH m + (if (2 <? m) && _is_leap y then 1 else 0).

Definition _ymd2ord (y m d : Z) : Z :=
  _days_before_year y + _days_before_month y m + d.

Definition _DI400Y : Z := 146097.
Definition _DI100Y : Z := 36524.
Definition _DI4Y : Z := 1461.
Definition _MAXORDINAL : Z := 3652059.

Definition _ord2ymd (n : Z) : Z * Z * Z :=
  let n := n - 1 in
  let n400 := n / _DI400Y in let n := n mod _DI400Y in
  let y := n400 * 400 + 1 in
  let n100 := n / _DI100Y in let n := n mod _DI100Y in
  let n4 := n / _DI4Y in let n := n mod _DI4Y in
  let n1 := n / 365 in let n := n mod 365 in
  let y := y + n100 * 100 + n4 * 4 + n1 in
  if (n1 =? 4) || (n100 =? 4) then (y - 1, 12, 31)
  else
    let leapyear := (n1 =? 3) && (negb (n4 =? 24) || (n100 =? 3)) in
    let m := Z.shiftr (n + 50) 5 in
    let preceding := month_entry _DAYS_BEFORE_MONTH m
                     + (if (2 <? m) && leapyear then 1 else 0) in
    if n <? preceding then
      let m := m - 1 in
      let preceding := preceding
        - (month_entry _DAYS_IN_MONTH m + (if (m =? 2) && leapyear then 1 else 0)) in
      (y, m, n - preceding + 1)
    else (y, m, n - preceding + 1).

(** [now - timedelta(days=v)].  An integer or a boolean is a number of
    days; [None], a string, a list and a dict make [timedelta] raise
    [TypeError].  A float, which [timedelta] takes as well, is not among
    the values of [pyval]. *)
Definition minus_days (now : datetime) (v : pyval) : res datetime :=
  days ← match v with
         | PInt n => Ret n
         | PBool b => Ret (if b then 1 else 0)
         | _ => Raise TypeError
         end;
  if 999999999 <? Z.abs days then Raise OverflowError
  else
    let o := _ymd2ord (year now) (month now) (day now) - days in
    if (0 <? o) && (o <=? _MAXORDINAL) then
      let '(y, m, d) := _ord2ymd o in
      Ret (mkdatetime y m d (hour now) (minute now) (second now) (microsecond now))
    else Raise OverflowError.

(** *** [datetime.strptime(s, '%Y-%m-%dT%H:%M:%SZ')]

    The format is compiled to a regular expression that is matched from
    the start of [s], alternatives being tried in order and with
    backtracking.  Each matcher below takes the continuation that matches
    the rest of the expression. *)

Section Matchers.
Context {A : Type}.

Definition digit (lo hi : Z) (c : ascii) : option Z :=
  let v := Z.of_nat (nat_of_ascii c) - 48 in
  if (lo <=? v) && (v <=? hi) then Some v else None.

Definition or_else (p q : option A) : option A :=
  match p with
  | Some x => Some x
  | None => q
  end.

(** One digit in [lo..hi]. *)
Definition d1 (lo hi : Z) (k : Z -> string -> option A) (s : string) : option A :=
  match s with
  | String a r => match digit lo hi a with
                  | Some x => k x r
                  | None => None
                  end
  | EmptyString => None
  end.

(** A digit in [lo1..hi1] followed by a digit in [lo2..hi2]. *)
Definition d2 (lo1 hi1 lo2 hi2 : Z) (k : Z -> string -> option A) (s : string)
  : option A :=
  d1 lo1 hi1 (fun x => d1 lo2 hi2 (fun y => k (10 * x + y))) s.

(** A literal character of the format; the expression ignores case. *)
Definition lit (upper lower : ascii) (k : string -> option A) (s : string) : option A :=
  match s with
  | String a r => if Ascii.eqb a upper || Ascii.eqb a lower then k r else None
  | EmptyString => None
  end.

(** [%Y]: [\d\d\d\d] *)
Definition re_Y (k : Z -> string -> option A) : string -> option A :=
  d2 0 9 0 9 (fun hi => d2 0 9 0 9 (fun lo => k (100 * hi + lo))).

(** [%m]: [1[0-2]|0[1-9]|[1-9]] *)
Definition re_m (k : Z -> string -> option A) (s : string) : option A :=
  or_else (d2 1 1 0 2 k s) (or_else (d2 0 0 1 9 k s) (d1 1 9 k s)).

(** [%d]: [3[0-1]|[1-2]\d|0[1-9]|[1-9]| [1-9]] *)
Definition re_d (k : Z -> string -> option A) (s : string) : option A :=
  or_else (d2 3 3 0 1 k s) (or_else (d2 1 2 0 9 k s) (or_else (d2 0 0 1 9 k s)
    (or_else (d1 1 9 k s) (lit " " " " (d1 1 9 k) s)))).

(** [%H]: [2[0-3]|[0-1]\d|\d] *)
Definition re_H (k : Z -> string -> option A) (s : string) : option A :=
  or_else (d2 2 2 0 3 k s) (or_else (d2 0 1 0 9 k s) (d1 0 9 k s)).

(** [%M]: [[0-5]\d|\d] *)
Definition re_M (k : Z -> string -> option A) (s : string) : option A :=
  or_else (d2 0 5 0 9 k s) (d1 0 9 k s).

(** [%S]: [6[0-1]|[0-5]\d|\d] *)
Definition re_S (k : Z -> string -> option A) (s : string) : option A :=
  or_else (d2 6 6 0 1 k s) (or_else (d2 0 5 0 9 k s) (d1 0 9 k s)).
End Matchers.

(** The match of the whole format: the six numbers and what is left of
    the string after the match. *)
Definition match_format (s : string) : option (list Z * string) :=
  re_Y (fun yr => lit "-" "-" (re_m (fun mo => lit "-" "-" (re_d (fun dy =>
  lit "T" "t" (re_H (fun hh => lit ":" ":" (re_M (fun mi => lit ":" ":" (re_S (fun ss =>
  lit "Z" "z" (fun rest => Some ([yr; mo; dy; hh; mi; ss], rest))))))))))))) s.

Definition strptime_string (s : string) : res datetime :=
  match match_format s with
  | Some ([yr; mo; dy; hh; mi; ss], EmptyString) =>
      if (1 <=? yr) && (dy <=? _days_in_month yr mo) && (ss <=? 59)
      then Ret (mkdatetime yr mo dy hh mi ss 0)
      else Raise ValueError
  | _ => Raise ValueError   (* no match, or unconverted data remains *)
  end.

Definition strptime (v : pyval) : res datetime :=
  match v with
  | PStr s => strptime_string s
  | _ => Raise TypeError
  end.

(** ** The world outside the program *)

(** An f-string: its literal parts and the values formatted into it. *)
Inductive piece :=
| Lit (s : string)
| Val (v : pyval)
| Exc (e : exn).          (* [str(e)] *)

Definition fstring := list piece.

(** A call of the [requests] library. *)
Inductive request :=
| GET (url : fstring) (params headers : list (string * pyval))
| PUT (url : fstring) (headers : list (string * pyval)) (json : pyval)
| DELETE (url : fstring) (headers : list (string * pyval)).

(** What the program does to the outside, in the order it does it. *)
Inductive event :=
| Http (r : request)
| LogInfo (msg : fstring)
| LogError (msg : fstring)
| PlexSections                      (* [server.library.sections()] is called *)
| PlexUpdate (title : string)       (* [section.update()] is called *)
| Rmdir (path : string).            (* [os.rmdir(path)] is called *)

(** The answer to a request: the call raises, or a response comes back. *)
Inductive http_result :=
| Failed (detail : string)
| Response (status : Z) (body : pyval).

(** A library section of the Plex server; [update_error] is what
    [section.update()] raises, if it does. *)
Record section := {
  section_title : string;
  section_type : string;
  update_error : option exn
}.

(** A directory entry: a file, or a directory with its entries.  Listing
    a directory that is not [listable], and removing one that is not
    [removable], raise [OSError]. *)
Inductive node :=
| File (name : string)
| Dir (name : string) (listable removable : bool) (entries : list node).

(** The backends.  The HTTP backend sees everything that happened up to
    and including the request it answers. *)
Record world := {
  http : list event -> http_result;
  plex_library : res (list section)
}.

(** The state threaded through a run: the trace, and for each path that
    names a directory which can be scanned, the entries of that directory. *)
Record state := {
  trace : list event;
  disk : gmap string (list node)
}.

(** ** The monad of statements *)

Definition M (A : Type) : Type := state -> res A * state.

Global Instance M_ret : MRet M := fun A a s => (Ret a, s).
Global Instance M_bind : MBind M := fun A B f m s =>
  match m s with
  | (Ret a, s') => f a s'
  | (Raise e, s') => (Raise e, s')
  end.

(** An expression evaluated inside a statement. *)
Definition lift {A} (r : res A) : M A := fun s => (r, s).

Definition raise {A} (e : exn) : M A := lift (Raise e).

Definition emit (ev : event) : M unit :=
  fun s => (Ret tt, {| trace := trace s ++ [ev]; disk := disk s |}).

(** [try: body except <caught> as e: handler e] *)
Definition try_except {A} (body : M A) (caught : exn -> bool) (handler : exn -> M A)
  : M A :=
  fun s =>
    match body s with
    | (Raise e, s') => if caught e then handler e s' else (Raise e, s')
    | done => done
    end.

(** [for x in l: body x] *)
Fixpoint for_each {A} (l : list A) (body : A -> M unit) : M unit :=
  match l with
  | [] => mret tt
  | x :: rest => _ ← body x; for_each rest body
  end.

Definition logger_info (msg : fstring) : M unit := emit (LogInfo msg).
Definition logger_error (msg : fstring) : M unit := emit (LogError msg).

Section Program.
Variable w : world.

(** A call of [requests.get], [requests.put] or [requests.delete]. *)
Definition requests_call (r : request) : M (Z * pyval) :=
  fun s =>
    let s' := {| trace := trace s ++ [Http r]; disk := disk s |} in
    match http w (trace s') with
    | Failed detail => (Raise (ConnectionError detail), s')
    | Response status body => (Ret (status, body), s')
    end.

(** [response.raise_for_status()] *)
Definition raise_for_status (response : Z * pyval) : M unit :=
  let status := fst response in
  if (400 <=? status) && (status <? 600) then raise (HTTPError status) else mret tt.

(** [response.json()] *)
Definition response_json (response : Z * pyval) : pyval := snd response.

(** ** SonarrManager *)

Record SonarrManager := {
  api_key : pyval;
  host : pyval
}.

Definition _get_headers (self : SonarrManager) : list (string * pyval) :=
  [("X-Api-Key", api_key self); ("Accept", PStr "application/json")].

(** The condition of the comprehension in [get_daily_series]. *)
Definition is_daily (s : pyval) : res bool :=
  t ← subscript s "seriesType"; Ret (eq_str t "daily").

Definition get_daily_series (self : SonarrManager) : M (list pyval) :=
  try_except
    (response ← requests_call
       (GET [Val (host self); Lit "/api/v3/series"] [] (_get_headers self));
     _ ← raise_for_status response;
     let series := response_json response in
     lift (l ← iterate series; comprehension is_daily l))
    is_RequestException
    (fun e =>
       _ ← logger_error [Lit "Failed to fetch series from Sonarr: "; Exc e];
       mret []).

(** [datetime.strptime(episode['airDateUtc'], '%Y-%m-%dT%H:%M:%SZ')] *)
Definition air_timestamp (episode : pyval) : res datetime :=
  a ← subscript episode "airDateUtc"; strptime a.

(** The condition of the comprehension in [get_episodes_to_delete]. *)
Definition to_delete (threshold_date : datetime) (episode : pyval) : res bool :=
  t ← air_timestamp episode;
  if datetime_lt t threshold_date
  then f ← dict_get episode "hasFile" (PBool false); Ret (truthy f)
  else Ret false.

Definition get_episodes_to_delete (self : SonarrManager) (series_id : pyval)
    (threshold_date : datetime) : M (list pyval) :=
  try_except
    (response ← requests_call
       (GET [Val (host self); Lit "/api/v3/episode"] [("seriesId", series_id)]
            (_get_headers self));
     _ ← raise_for_status response;
     let episodes := response_json response in
     lift (l ← iterate episodes; comprehension (to_delete threshold_date) l))
    is_RequestException
    (fun e =>
       _ ← logger_error [Lit "Failed to fetch episodes for series "; Val series_id;
                         Lit ": "; Exc e];
       mret []).

(** The assignment to [episode['monitored']] changes the dict that the
    list of episodes holds; the list is not read again afterwards, and
    here the changed dict is local. *)
Definition process_episode (self : SonarrManager) (episode : pyval) (dry_run : pyval)
  : M bool :=
  try_except
    (episode ←
       (if negb (truthy dry_run) then
          (* Unmonitor episode *)
          episode ← lift (setitem episode "monitored" (PBool false));
          id ← lift (subscript episode "id");
          _ ← requests_call
            (PUT [Val (host self); Lit "/api/v3/episode/"; Val id] (_get_headers self)
                 episode);
          (* Delete episode file *)
          file_id ← lift (subscript episode "episodeFileId");
          _ ← requests_call
            (DELETE [Val (host self); Lit "/api/v3/episodefile/"; Val file_id]
                    (_get_headers self));
          mret episode
        else mret episode);
     title ← lift (dict_get episode "title" (PStr "Unknown"));
     _ ← logger_info [Lit "Processed Sonarr episode: "; Val title; Lit " (";
                      Lit (if truthy dry_run then "Dry run" else "Deleted"); Lit ")"];
     mret true)
    is_Exception
    (fun e =>
       id ← lift (dict_get episode "id" PNone);
       _ ← logger_error [Lit "Failed to process Sonarr episode "; Val id; Lit ": "; Exc e];
       mret false).

(** ** PlexManager *)

Record PlexManager := {
  server_url : pyval;
  server_token : pyval
}.

Definition refresh_libraries (self : PlexManager) (dry_run : pyval) : M unit :=
  try_except
    (if negb (truthy dry_run) then
       _ ← emit PlexSections;
       sections ← lift (plex_library w);
       for_each sections (fun section =>
         if String.eqb (section_type section) "show" then
           _ ← emit (PlexUpdate (section_title section));
           _ ← match update_error section with
               | Some e => raise e
               | None => mret tt
               end;
           logger_info [Lit "Refreshed Plex library: ";
                        Val (PStr (section_title section))]
         else mret tt)
     else mret tt)
    is_Exception
    (fun e => logger_error [Lit "Failed to refresh Plex libraries: "; Exc e]).

(** ** Config and MediaCleaner *)

(** The fields hold what the configuration document holds: the
    annotations of the dataclass are not enforced. *)
Record Config := {
  days_threshold : pyval;
  media_root : pyval;
  delete_empty_dirs : pyval;
  parallel_processing : pyval;
  max_workers : pyval;
  dry_run : pyval;
  sonarr_enabled : bool;
  sonarr_api_key : pyval;
  sonarr_host : pyval;
  plex_enabled : bool;
  plex_url : pyval;
  plex_token : pyval
}.

Record MediaCleaner := {
  config : Config;
  sonarr : option SonarrManager;
  plex : option PlexManager
}.

(** How [MediaCleaner(config_path)] ends: with an object, or with the
    process terminated by [sys.exit(message)]. *)
Inductive startup (A : Type) :=
| Started (a : A)
| SystemExit (message : fstring).
Arguments Started {A} a.
Arguments SystemExit {A} message.

(** [data[a][b]] and [data[a].get(b, dflt)] *)
Definition subscript2 (data : pyval) (a b : string) : res pyval :=
  x ← subscript data a; subscript x b.

Definition get2 (data : pyval) (a b : string) (dflt : pyval) : res pyval :=
  x ← subscript data a; dict_get x b dflt.

(** The body of the [try] in [_load_config]; [data] is what
    [yaml.safe_load] returned. *)
Definition build_config (data : pyval) : res Config :=
  (* Create base config *)
  v_days_threshold ← subscript2 data "cleanup" "days_threshold";
  v_media_root ← subscript2 data "cleanup" "media_root";
  v_delete_empty_dirs ← get2 data "cleanup" "delete_empty_dirs" (PBool true);
  v_parallel_processing ← get2 data "performance" "parallel_processing" (PBool true);
  v_max_workers ← get2 data "performance" "max_workers" (PInt 4);
  v_dry_run ← get2 data "cleanup" "dry_run" (PBool false);
  (* Add Sonarr config if present *)
  has_sonarr ← contains "sonarr" data;
  '(v_sonarr_api_key, v_sonarr_host) ←
     (if has_sonarr : bool then
        k ← subscript2 data "sonarr" "api_key";
        h ← subscript2 data "sonarr" "host";
        Ret (k, h)
      else Ret (PNone, PNone));
  (* Add Plex config if present *)
  has_plex ← contains "plex" data;
  '(v_plex_url, v_plex_token) ←
     (if has_plex : bool then
        u ← subscript2 data "plex" "url";
        t ← subscript2 data "plex" "token";
        Ret (u, t)
      else Ret (PNone, PNone));
  if negb (has_sonarr || has_plex) then Raise ValueError
  else Ret {| days_threshold := v_days_threshold;
              media_root := v_media_root;
              delete_empty_dirs := v_delete_empty_dirs;
              parallel_processing := v_parallel_processing;
              max_workers := v_max_workers;
              dry_run := v_dry_run;
              sonarr_enabled := has_sonarr;
              sonarr_api_key := v_sonarr_api_key;
              sonarr_host := v_sonarr_host;
              plex_enabled := has_plex;
              plex_url := v_plex_url;
              plex_token := v_plex_token |}.

(** [file] is the outcome of opening the file and parsing it:
    [OSError] and [YAMLError] are raised there. *)
Definition _load_config (file : res pyval) : startup Config :=
  match data ← file; build_config data with
  | Ret config => Started config
  | Raise e => SystemExit [Lit "Failed to load configuration: "; Exc e]
  end.

(** [__init__], after the configuration is loaded.  [connect] is what
    [PlexServer(url, token)] raises, if it does. *)
Definition MediaCleaner_init (PLEX_AVAILABLE : bool) (connect : option exn)
    (config : Config) : res MediaCleaner :=
  let sonarr :=
    if sonarr_enabled config
    then Some {| api_key := sonarr_api_key config; host := sonarr_host config |}
    else None in
  plex ← (if plex_enabled config && PLEX_AVAILABLE then
            match connect with
            | Some e => Raise e
            | None => Ret (Some {| server_url := plex_url config;
                                   server_token := plex_token config |})
            end
          else Ret None);
  Ret {| config := config; sonarr := sonarr; plex := plex |}.

(** ** Pruning of empty directories *)

(** [os.path.join(a, b)] *)
Fixpoint ends_with_sep (a : string) : bool :=
  match a with
  | EmptyString => false
  | String c EmptyString => Ascii.eqb c "/"
  | String _ r => ends_with_sep r
  end.

Definition path_join (a b : string) : string :=
  if is_prefix "/" b then b
  else if String.eqb a "" || ends_with_sep a then a ++ b
  else a ++ "/" ++ b.

(** The outcome of a part of the walk: the entries as they are left,
    what was done, and what was raised if the walk stopped there. *)
Definition walked (A : Type) : Type := A * list event * option exn.

(** The inner loop, [for dir_name in dirs], at the directory [root]
    whose entries are [entries]. *)
Fixpoint remove_empty (root : string) (entries : list node) : walked (list node) :=
  match entries with
  | [] => ([], [], None)
  | File f :: rest =>
      let '(rest', evs, err) := remove_empty root rest in
      (File f :: rest', evs, err)
  | Dir name listable removable sub :: rest =>
      let dir_path := path_join root name in
      if negb listable then
        (entries, [], Some (OSError dir_path))          (* os.listdir raises *)
      else
        match sub with
        | [] =>
            if removable then
              let '(rest', evs, err) := remove_empty root rest in
              (rest',
               Rmdir dir_path
               :: LogInfo [Lit "Removed empty directory: "; Val (PStr dir_path)]
               :: evs,
               err)
            else
              (entries, [Rmdir dir_path], Some (OSError dir_path))  (* os.rmdir raises *)
        | _ :: _ =>
            let '(rest', evs, err) := remove_empty root rest in
            (Dir name listable removable sub :: rest', evs, err)
        end
  end.

(** [os.walk(_, topdown=False)] entering the entry [n] of the directory
    [parent], with the body of the outer loop run at each yield.  A
    directory that cannot be scanned is skipped by [os.walk]. *)
Fixpoint walk_into (parent : string) (n : node) : walked node :=
  match n with
  | File _ => (n, [], None)
  | Dir name listable removable entries =>
      if listable then
        let top := path_join parent name in
        let '(entries1, evs1, err1) :=
          (fix descend (l : list node) : walked (list node) :=
             match l with
             | [] => ([], [], None)
             | c :: rest =>
                 match walk_into top c with
                 | (c', evs, Some e) => (c' :: rest, evs, Some e)
                 | (c', evs, None) =>
                     let '(rest', evs', err) := descend rest in
                     (c' :: rest', (evs ++ evs')%list, err)
                 end
             end) entries in
        match err1 with
        | Some e => (Dir name listable removable entries1, evs1, Some e)
        | None =>
            let '(entries2, evs2, err2) := remove_empty top entries1 in
            (Dir name listable removable entries2, (evs1 ++ evs2)%list, err2)
        end
      else (n, [], None)
  end.

(** The walk into each of the entries of the directory [top], in turn. *)
Fixpoint descend (top : string) (l : list node) : walked (list node) :=
  match l with
  | [] => ([], [], None)
  | c :: rest =>
      match walk_into top c with
      | (c', evs, Some e) => (c' :: rest, evs, Some e)
      | (c', evs, None) =>
          let '(rest', evs', err) := descend top rest in
          (c' :: rest', (evs ++ evs')%list, err)
      end
  end.

(** The two nested loops of [cleanup_empty_directories] over the
    directory [top], whose entries are [entries]. *)
Definition walk (top : string) (entries : list node) : walked (list node) :=
  match descend top entries with
  | (entries1, evs1, Some e) => (entries1, evs1, Some e)
  | (entries1, evs1, None) =>
      let '(entries2, evs2, err2) := remove_empty top entries1 in
      (entries2, (evs1 ++ evs2)%list, err2)
  end.

(** The loops as a statement; a [top] that cannot be scanned yields
    nothing. *)
Definition walk_media_root (top : pyval) : M unit :=
  match top with
  | PStr p => fun s =>
      match disk s !! p with
      | None => (Ret tt, s)
      | Some entries =>
          let '(entries', evs, err) := walk p entries in
          let s' := {| trace := trace s ++ evs; disk := <[p := entries']> (disk s) |} in
          (match err with Some e => Raise e | None => Ret tt end, s')
      end
  | _ => raise TypeError
  end.

Definition cleanup_empty_directories (self : MediaCleaner) : M unit :=
  if negb (truthy (delete_empty_dirs (config self))) || truthy (dry_run (config self))
  then mret tt
  else
    try_except
      (walk_media_root (media_root (config self)))
      is_Exception
      (fun e => logger_error [Lit "Failed to cleanup empty directories: "; Exc e]).
(** ** The orchestrator *)

(** [ThreadPoolExecutor(max_workers=v)] *)
Definition ThreadPoolExecutor (v : pyval) : res unit :=
  match v with
  | PNone => Ret tt
  | PInt n => if n <=? 0 then Raise ValueError else Ret tt
  | PBool b => if b then Ret tt else Raise ValueError
  | _ => Raise TypeError
  end.

(** [list(executor.map(f, l))] inside the [with] block: every task is
    run, then the results are collected in the order of [l]; a task
    that raised makes the collection raise.  The tasks are run one after
    the other in the order of [l]: how the pool interleaves its workers
    is not modelled, so that of the parallel branch only what does not
    depend on the order of the events of different tasks is stated. *)
Fixpoint executor_map {A B} (f : A -> M B) (l : list A) : M (list B) :=
  match l with
  | [] => mret []
  | x :: rest => fun s =>
      let '(r, s1) := f x s in
      let '(rs, s2) := executor_map f rest s1 in
      (y ← r; ys ← rs; Ret (y :: ys), s2)
  end.

(** [for x in l: acc = body acc x] with the variable [acc] of the loop. *)
Fixpoint fold_each {A S} (l : list A) (acc : S) (body : S -> A -> M S) : M S :=
  match l with
  | [] => mret acc
  | x :: rest => acc' ← body acc x; fold_each rest acc' body
  end.

(** [sum(1 for r in results if r)] *)
Definition ones (results : list bool) : list Z :=
  flat_map (fun r : bool => if r then [1] else []) results.

Definition sum (l : list Z) : Z := fold_left Z.add l 0.

(** [total_processed += sum(1 for r in results if r)] *)
Definition count_collected (total_processed : Z) (results : list bool) : Z :=
  total_processed + sum (ones results).

(** [if <result>: total_processed += 1] *)
Definition count_one (total_processed : Z) (result : bool) : Z :=
  if result then total_processed + 1 else total_processed.

(** The sequential loop over the episodes, the result of each call of
    [process_episode] being given. *)
Definition count_in_loop (total_processed : Z) (results : list bool) : Z :=
  fold_left count_one results total_processed.

(** The processing of the episodes of one series. *)
Definition process_episodes (self : MediaCleaner) (manager : SonarrManager)
    (episodes : list pyval) (total_processed : Z) : M Z :=
  if truthy (parallel_processing (config self)) then
    _ ← lift (ThreadPoolExecutor (max_workers (config self)));
    results ← executor_map
                (fun ep => process_episode manager ep (dry_run (config self)))
                episodes;
    mret (count_collected total_processed results)
  else
    fold_each episodes total_processed (fun total_processed episode =>
      result ← process_episode manager episode (dry_run (config self));
      mret (count_one total_processed result)).

(** The body of [for serie in series]. *)
Definition process_serie (self : MediaCleaner) (manager : SonarrManager)
    (threshold_date : datetime) (total_processed : Z) (serie : pyval) : M Z :=
  id ← lift (subscript serie "id");
  episodes ← get_episodes_to_delete manager id threshold_date;
  match episodes with
  | [] => mret total_processed                         (* continue *)
  | _ :: _ =>
      title ← lift (subscript serie "title");
      _ ← logger_info [Lit "Processing "; Val (PInt (Z.of_nat (List.length episodes)));
                       Lit " episodes for '"; Val title; Lit "'"];
      process_episodes self manager episodes total_processed
  end.

(** [self.sonarr.m(...)] and [self.plex.m(...)]: the attribute of [None]. *)
Definition attribute {A B} (o : option A) (m : A -> M B) : M B :=
  match o with
  | Some x => m x
  | None => raise AttributeError
  end.

Definition run (self : MediaCleaner) (now : datetime) : M unit :=
  _ ← logger_info [Lit "Starting media cleanup process..."];
  threshold_date ← lift (minus_days now (days_threshold (config self)));
  (* Process Sonarr content if enabled *)
  total_processed ←
    (if sonarr_enabled (config self) then
       _ ← logger_info [Lit "Processing Sonarr content..."];
       attribute (sonarr self) (fun manager =>
         series ← get_daily_series manager;
         fold_each series 0 (process_serie self manager threshold_date))
     else mret 0);
  (* Refresh Plex libraries if enabled *)
  _ ← (if plex_enabled (config self) then
         _ ← logger_info [Lit "Refreshing Plex libraries..."];
         attribute (plex self) (fun manager =>
           refresh_libraries manager (dry_run (config self)))
       else mret tt);
  (* Clean up empty directories if configured *)
  _ ← (if truthy (delete_empty_dirs (config self))
       then cleanup_empty_directories self
       else mret tt);
  logger_info [Lit "Cleanup complete. Processed "; Val (PInt total_processed);
               Lit " episodes (";
               Lit (if truthy (dry_run (config self)) then "Dry run" else "Actual run");
               Lit ")"].
End Program.

Arguments Started {A} a.
Arguments SystemExit {A} message.

(** * Notions of the statements *)

(** The state [s] after the events [evs]. *)
Definition say (s : state) (evs : list event) : state :=
  {| trace := trace s ++ evs; disk := disk s |}.

(** A status that [raise_for_status] lets through. *)
Definition accepted (status : Z) : Prop := (400 <=? status) && (status <? 600) = false.

(** The requests of the two fetches. *)
Definition series_request (self : SonarrManager) : request :=
  GET [Val (host self); Lit "/api/v3/series"] [] (_get_headers self).

Definition episode_request (self : SonarrManager) (series_id : pyval) : request :=
  GET [Val (host self); Lit "/api/v3/episode"] [("seriesId", series_id)]
      (_get_headers self).

(** The request [req], issued in the state [s], fails with the exception
    [e]: the transport fails, or the response has an error status. *)
Definition fetch_fails (w : world) (s : state) (req : request) (e : exn) : Prop :=
  (exists detail, http w (trace s ++ [Http req]) = Failed detail
                  /\ e = ConnectionError detail)
  \/ (exists status body, http w (trace s ++ [Http req]) = Response status body
                          /\ ~ accepted status /\ e = HTTPError status).

(** The file-presence flag of an episode: the truth value of
    [episode.get('hasFile', False)]. *)
Definition file_present (episode : pyval) : bool :=
  match dict_get episode "hasFile" (PBool false) with
  | Ret f => truthy f
  | Raise _ => false
  end.

(** The episode aired strictly before [cutoff]. *)
Definition aired_before (cutoff : datetime) (episode : pyval) : Prop :=
  exists t, air_timestamp episode = Ret t /\ datetime_lt t cutoff = true.

(** The record has no [airDateUtc], which makes the subscript raise [e],
    or has one that [strptime] rejects with [e]. *)
Definition missing_or_malformed (episode : pyval) (e : exn) : Prop :=
  exists d, episode = PDict d
    /\ ((d !! "airDateUtc" = None /\ e = KeyError "airDateUtc")
        \/ (exists txt, d !! "airDateUtc" = Some (PStr txt)
                        /\ strptime_string txt = Raise ValueError
                        /\ e = ValueError)).

(** What the run has done when it asks for the series. *)
Definition started (manager : SonarrManager) : list event :=
  [LogInfo [Lit "Starting media cleanup process..."];
   LogInfo [Lit "Processing Sonarr content..."];
   Http (series_request manager)].

(** The events that change something outside: an update or a delete sent
    to Sonarr, the update of a Plex section, the removal of a directory. *)
Definition mutating (ev : event) : bool :=
  match ev with
  | Http (PUT _ _ _) | Http (DELETE _ _) | PlexUpdate _ | Rmdir _ => true
  | _ => false
  end.

(** A statement that leaves the disk as it is and does nothing mutating. *)
Definition quiet {A} (m : M A) : Prop :=
  forall s, exists evs,
    snd (m s) = say s evs /\ Forall (fun ev => mutating ev = false) evs.

(** What the walk does: it removes directories and logs each removal. *)
Definition removal (ev : event) : Prop :=
  match ev with
  | Rmdir _ | LogInfo _ => True
  | _ => False
  end.







(** The call of [process_episode] for [episode] returns [result],
    whenever it is made. *)
Definition outcome (w : world) (manager : SonarrManager) (dry_run : pyval)
    (episode : pyval) (result : bool) : Prop :=
  forall s, fst (process_episode w manager episode dry_run s) = Ret result.

(** The shape of the two fetches: the request, the check of the status,
    what is made of the body, and the handler of [RequestException]. *)
Definition fetching {A} (w : world) (req : request) (k : pyval -> res A)
    (handler : exn -> M A) : M A :=
  try_except
    (response ← requests_call w req;
     _ ← raise_for_status response;
     lift (k (response_json response)))
    is_RequestException handler.

(** Induction on directory trees. *)
Section NodeInduction.
Variable P : node -> Prop.
Hypothesis file_case : forall name, P (File name).
Hypothesis dir_case :
  forall name listable removable entries,
    Forall P entries -> P (Dir name listable removable entries).

Fixpoint node_tree_ind (n : node) : P n :=
  match n with
  | File name => file_case name
  | Dir name listable removable entries =>
      dir_case name listable removable entries
        ((fix all (l : list node) : Forall P l :=
            match l with
            | [] => @List.Forall_nil _ P
            | c :: rest => @List.Forall_cons _ P c rest (node_tree_ind c) (all rest)
            end) entries)
  end.
End NodeInduction.

(** * Sample data *)

(** A Sonarr that answers every request with status 500 and no body. *)
Definition sonarr_down : world :=
  {| http := fun _ => Response 500 PNone; plex_library := Ret [] |}.

Definition a_manager : SonarrManager :=
  {| api_key := PStr "key"; host := PStr "http://sonarr:8989" |}.

Definition an_episode : gmap string pyval :=
  <["id" := PInt 7]> (<["episodeFileId" := PInt 70]> (<["title" := PStr "Monday"]>
  (<["hasFile" := PBool true]> (<["airDateUtc" := PStr "2024-01-01T00:00:00Z"]> ∅)))).

Definition fresh : state := {| trace := []; disk := ∅ |}.

(** A document with the two required keys of [cleanup] and a [sonarr]
    block, and no [performance] section. *)
Definition no_performance : pyval :=
  PDict (<["cleanup" := PDict (<["days_threshold" := PInt 30]>
                               (<["media_root" := PStr "/media"]> ∅))]>
        (<["sonarr" := PDict (<["api_key" := PStr "key"]>
                              (<["host" := PStr "http://sonarr:8989"]> ∅))]> ∅)).

(** A Sonarr with two series, of which one is a daily series. *)
Definition daily_show : pyval :=
  PDict (<["id" := PInt 1]> (<["title" := PStr "Show"]> (<["seriesType" := PStr "daily"]> ∅))).

Definition standard_show : pyval :=
  PDict (<["id" := PInt 2]> (<["title" := PStr "Drama"]>
        (<["seriesType" := PStr "standard"]> ∅))).

Definition two_series : world :=
  {| http := fun _ => Response 200 (PList [standard_show; daily_show]);
     plex_library := Ret [] |}.

(** The scenario of the specification: the cutoff is 30 days before the
    first of March 2024; E1 aired 40 days before that day and has a file,
    E2 aired 10 days before it and has a file, E3 aired 50 days before it
    and has no file. *)
Definition episode_of (id : Z) (aired : string) (has_file : bool) : pyval :=
  PDict (<["id" := PInt id]> (<["episodeFileId" := PInt (10 * id)]>
        (<["title" := PStr "Episode"]> (<["hasFile" := PBool has_file]>
        (<["airDateUtc" := PStr aired]> ∅))))).

Definition E1 : pyval := episode_of 1 "2024-01-21T00:00:00Z" true.
Definition E2 : pyval := episode_of 2 "2024-02-20T00:00:00Z" true.
Definition E3 : pyval := episode_of 3 "2024-01-11T00:00:00Z" false.

Definition three_episodes : world :=
  {| http := fun _ => Response 200 (PList [E1; E2; E3]); plex_library := Ret [] |}.

Definition the_cutoff : datetime := mkdatetime 2024 1 31 12 0 0 0.

(** A Sonarr that cannot be reached. *)
Definition unreachable : world :=
  {| http := fun _ => Failed "connection refused"; plex_library := Ret [] |}.

Definition a_config (dry : bool) : Config :=
  {| days_threshold := PInt 30;
     media_root := PStr "/media";
     delete_empty_dirs := PBool true;
     parallel_processing := PBool true;
     max_workers := PInt 4;
     dry_run := PBool dry;
     sonarr_enabled := true;
     sonarr_api_key := PStr "key";
     sonarr_host := PStr "http://sonarr:8989";
     plex_enabled := true;
     plex_url := PStr "http://plex:32400";
     plex_token := PStr "token" |}.

Definition a_plex : PlexManager :=
  {| server_url := PStr "http://plex:32400"; server_token := PStr "token" |}.

Definition a_cleaner (dry : bool) : MediaCleaner :=
  {| config := a_config dry; sonarr := Some a_manager; plex := Some a_plex |}.

(** The same cleaner with [parallel_processing] set to [False]. *)
Definition one_by_one (dry : bool) : MediaCleaner :=
  {| config := {| days_threshold := PInt 30;
                  media_root := PStr "/media";
                  delete_empty_dirs := PBool true;
                  parallel_processing := PBool false;
                  max_workers := PInt 4;
                  dry_run := PBool dry;
                  sonarr_enabled := true;
                  sonarr_api_key := PStr "key";
                  sonarr_host := PStr "http://sonarr:8989";
                  plex_enabled := true;
                  plex_url := PStr "http://plex:32400";
                  plex_token := PStr "token" |};
     sonarr := Some a_manager;
     plex := Some a_plex |}.

(** A Sonarr with one daily series, the second of whose episodes has not
    been given an air date. *)
Definition unaired : pyval :=
  PDict (<["id" := PInt 4]> (<["episodeFileId" := PInt 0]>
        (<["title" := PStr "TBA"]> (<["hasFile" := PBool false]> ∅)))).

Definition with_unaired : world :=
  {| http := fun tr =>
       match last tr with
       | Some (Http (GET _ [] _)) => Response 200 (PList [daily_show])
       | _ => Response 200 (PList [E1; unaired; E2])
       end;
     plex_library := Ret [] |}.

Definition first_of_march : datetime := mkdatetime 2024 3 1 12 0 0 0.

(** The scenario of the specification as a whole run: one daily series
    with the episodes E1, E2 and E3, a Plex server with a show library and
    a film library, and a media root with an empty directory. *)
Definition scenario : world :=
  {| http := fun tr =>
       match last tr with
       | Some (Http (GET _ [] _)) => Response 200 (PList [standard_show; daily_show])
       | Some (Http (GET _ _ _)) => Response 200 (PList [E1; E2; E3])
       | _ => Response 200 PNone
       end;
     plex_library :=
       Ret [ {| section_title := "TV"; section_type := "show"; update_error := None |};
             {| section_title := "Films"; section_type := "movie";
                update_error := None |} ] |}.

Definition a_disk : state :=
  {| trace := [];
     disk := {[ "/media" := [Dir "Show" true true [Dir "Season 1" true true []];
                             File "notes.txt"] ]} |}.

(** A media root with two empty directories, the first of which cannot
    be removed. *)
Definition two_empty : state :=
  {| trace := [];
     disk := {[ "/media" := [Dir "a" true false []; Dir "b" true true []] ]} |}.

(** * Further notions *)

(** The value is a dict. *)
Definition is_dict (v : pyval) : Prop := exists d, v = PDict d.

(** The two requests of [process_episode] for the episode [episode]. *)
Definition put_request (self : SonarrManager) (episode : gmap string pyval) (id : pyval)
  : request :=
  PUT [Val (host self); Lit "/api/v3/episode/"; Val id] (_get_headers self)
      (PDict (<["monitored" := PBool false]> episode)).

Definition delete_request (self : SonarrManager) (file_id : pyval) : request :=
  DELETE [Val (host self); Lit "/api/v3/episodefile/"; Val file_id] (_get_headers self).

(** The two lines that [process_episode] logs. *)
Definition processed_line (episode : gmap string pyval) (mode : string) : event :=
  LogInfo [Lit "Processed Sonarr episode: ";
           Val (default (PStr "Unknown") (episode !! "title"));
           Lit " ("; Lit mode; Lit ")"].

Definition failed_line (episode : gmap string pyval) (e : exn) : event :=
  LogError [Lit "Failed to process Sonarr episode ";
            Val (default PNone (episode !! "id")); Lit ": "; Exc e].

(** A Sonarr that answers everything but the requests to delete a file,
    which fail in the transport. *)
Definition delete_times_out : world :=
  {| http := fun tr =>
       match last tr with
       | Some (Http (DELETE _ _)) => Failed "timed out"
       | _ => Response 200 PNone
       end;
     plex_library := Ret [] |}.

(** An episode record without an identifier. *)
Definition nameless : gmap string pyval :=
  <["episodeFileId" := PInt 70]> (<["title" := PStr "Monday"]> ∅).

(** [a <= b] on naive datetimes. *)
Definition datetime_le (a b : datetime) : Prop := datetime_lt a b = true \/ a = b.

(** The format tag of the record is the string [daily]. *)
Definition tagged_daily (x : pyval) : bool :=
  match subscript x "seriesType" with
  | Ret t => eq_str t "daily"
  | Raise _ => false
  end.

(** The instant at which E1 aired, and an episode that aired before it. *)
Definition at_E1 : datetime := mkdatetime 2024 1 21 0 0 0 0.

Definition E0 : pyval := episode_of 0 "2023-12-01T00:00:00Z" true.

Definition four_episodes : world :=
  {| http := fun _ => Response 200 (PList [E0; E1; E2; E3]); plex_library := Ret [] |}.

(** A series record without a format tag. *)
Definition untagged_show : pyval :=
  PDict (<["id" := PInt 3]> (<["title" := PStr "Pilot"]> ∅)).

Definition with_untagged : world :=
  {| http := fun _ => Response 200 (PList [daily_show; untagged_show; standard_show]);
     plex_library := Ret [] |}.

(** Lines 247 to 257 of [run]: what follows the processing of Sonarr. *)
Definition finish (w : world) (self : MediaCleaner) (total_processed : Z) : M unit :=
  _ ← (if plex_enabled (config self) then
         _ ← logger_info [Lit "Refreshing Plex libraries..."];
         attribute (plex self) (fun manager =>
           refresh_libraries w manager (dry_run (config self)))
       else mret tt);
  _ ← (if truthy (delete_empty_dirs (config self))
       then cleanup_empty_directories self
       else mret tt);
  logger_info [Lit "Cleanup complete. Processed "; Val (PInt total_processed);
               Lit " episodes (";
               Lit (if truthy (dry_run (config self)) then "Dry run" else "Actual run");
               Lit ")"].

(** All that the statement adds to the trace satisfies [P]. *)
Definition emits {A} (P : event -> Prop) (m : M A) : Prop :=
  forall s, exists evs, trace (snd (m s)) = (trace s ++ evs)%list /\ Forall P evs.

Definition not_http (ev : event) : Prop :=
  match ev with
  | Http _ => False
  | _ => True
  end.

(** A cleaner for which Sonarr is not configured. *)
Definition plex_only : MediaCleaner :=
  {| config := {| days_threshold := PInt 30;
                  media_root := PStr "/media";
                  delete_empty_dirs := PBool true;
                  parallel_processing := PBool true;
                  max_workers := PInt 4;
                  dry_run := PBool false;
                  sonarr_enabled := false;
                  sonarr_api_key := PNone;
                  sonarr_host := PNone;
                  plex_enabled := true;
                  plex_url := PStr "http://plex:32400";
                  plex_token := PStr "token" |};
     sonarr := None;
     plex := Some a_plex |}.

(** A value that is no number: [None], a string, a list or a dict. *)
Definition no_number (v : pyval) : Prop :=
  match v with
  | PNone | PStr _ | PList _ | PDict _ => True
  | PBool _ | PInt _ => False
  end.

(** A configuration whose threshold was written as a string. *)
Definition quoted_threshold : MediaCleaner :=
  {| config := {| days_threshold := PStr "30";
                  media_root := PStr "/media";
                  delete_empty_dirs := PBool true;
                  parallel_processing := PBool true;
                  max_workers := PInt 4;
                  dry_run := PBool false;
                  sonarr_enabled := true;
                  sonarr_api_key := PStr "key";
                  sonarr_host := PStr "http://sonarr:8989";
                  plex_enabled := false;
                  plex_url := PNone;
                  plex_token := PNone |};
     sonarr := Some a_manager;
     plex := None |}.

(** What [refresh_libraries] does for a section whose update succeeds. *)
Definition refreshed (sec : section) : list event :=
  if String.eqb (section_type sec) "show"
  then [PlexUpdate (section_title sec);
        LogInfo [Lit "Refreshed Plex library: "; Val (PStr (section_title sec))]]
  else [].

(** The update of the section is not called, or returns. *)
Definition updates_fine (sec : section) : Prop :=
  section_type sec <> "show" \/ update_error sec = None.

(** A Plex server the second of whose three show libraries cannot be
    updated. *)
Definition library (title kind : string) (err : option exn) : section :=
  {| section_title := title; section_type := kind; update_error := err |}.

Definition plex_with_broken_library : world :=
  {| http := fun _ => Response 200 (PList []);
     plex_library :=
       Ret [library "TV" "show" None; library "Films" "movie" None;
            library "Anime" "show" (Some (PlexError "unauthorized"));
            library "Kids" "show" None] |}.

(** The events of the Sonarr pass: requests and log lines. *)
Definition of_sonarr_pass (ev : event) : Prop :=
  match ev with
  | Http _ | LogInfo _ | LogError _ => True
  | _ => False
  end.

(** The summary that [run] logs last. *)
Definition summary (self : MediaCleaner) (total_processed : Z) : event :=
  LogInfo [Lit "Cleanup complete. Processed "; Val (PInt total_processed);
           Lit " episodes (";
           Lit (if truthy (dry_run (config self)) then "Dry run" else "Actual run");
           Lit ")"].

(** A configuration with a [plex] block, loaded where the Plex client
    library is not installed. *)
Definition without_plexapi : res MediaCleaner :=
  MediaCleaner_init false None (a_config false).

(** The statement returns, and only adds to the trace. *)
Definition completes (m : M unit) : Prop :=
  forall s, exists s' evs, m s = (Ret tt, s') /\ trace s' = (trace s ++ evs)%list.

(** The paths of the files below an entry of the directory [parent]. *)
Fixpoint files_in (parent : string) (n : node) : list string :=
  match n with
  | File name => [path_join parent name]
  | Dir name _ _ entries => flat_map (files_in (path_join parent name)) entries
  end.

(** The files that the disk holds below the directory [top]. *)
Definition files_on (s : state) (top : string) : list string :=
  match disk s !! top with
  | Some entries => flat_map (files_in top) entries
  | None => []
  end.

(** Every directory of the tree can be listed and removed. *)
Fixpoint healthy (n : node) : bool :=
  match n with
  | File _ => true
  | Dir _ listable removable entries => listable && removable && forallb healthy entries
  end.

(** Every directory of the tree can be listed and has an entry. *)
Fixpoint settled (n : node) : bool :=
  match n with
  | File _ => true
  | Dir _ listable _ entries =>
      listable && match entries with [] => false | _ => true end
      && forallb settled entries
  end.

(** A media root with nested empty directories beside files. *)
Definition nested : list node :=
  [Dir "Show" true true
     [Dir "Season 1" true true [Dir "extras" true true []];
      Dir "Season 2" true true [File "e01.mkv"; Dir "subs" true true []]];
   Dir "Old" true true [Dir "a" true true [Dir "b" true true []]];
   File "notes.txt"].

Definition nested_disk : state := {| trace := []; disk := {[ "/media" := nested ]} |}.

Definition after_pruning : list node :=
  [Dir "Show" true true [Dir "Season 2" true true [File "e01.mkv"]]; File "notes.txt"].

(** What [os.walk] leaves of a healthy directory when it yields it: its
    own empty directories are still to be removed by the inner loop, and
    everything below them is settled. *)
Definition walked_through (n : node) : Prop :=
  match n with
  | File _ => True
  | Dir _ listable removable entries =>
      listable = true /\ removable = true /\ forallb settled entries = true
  end.

(** A document with a [cleanup] and a [performance] section and no
    block of a backend. *)
Definition no_backend : gmap string pyval :=
  <["cleanup" := PDict (<["days_threshold" := PInt 30]>
                        (<["media_root" := PStr "/media"]> ∅))]>
  (<["performance" := PDict ∅]> ∅).

(** A document with both backends, in which only [max_workers] is given
    among the optional keys. *)
Definition both_backends : gmap string pyval :=
  <["cleanup" := PDict (<["days_threshold" := PInt 30]>
                        (<["media_root" := PStr "/media"]> ∅))]>
  (<["performance" := PDict (<["max_workers" := PInt 8]> ∅)]>
  (<["sonarr" := PDict (<["api_key" := PStr "key"]>
                        (<["host" := PStr "http://sonarr:8989"]> ∅))]>
  (<["plex" := PDict (<["url" := PStr "http://plex:32400"]>
                      (<["token" := PStr "token"]> ∅))]> ∅))).

Definition loaded_both : Config :=
  {| days_threshold := PInt 30;
     media_root := PStr "/media";
     delete_empty_dirs := PBool true;
     parallel_processing := PBool true;
     max_workers := PInt 8;
     dry_run := PBool false;
     sonarr_enabled := true;
     sonarr_api_key := PStr "key";
     sonarr_host := PStr "http://sonarr:8989";
     plex_enabled := true;
     plex_url := PStr "http://plex:32400";
     plex_token := PStr "token" |}.

(** A cleaner whose pool is given no worker. *)
Definition no_worker : MediaCleaner :=
  {| config := {| days_threshold := PInt 30;
                  media_root := PStr "/media";
                  delete_empty_dirs := PBool true;
                  parallel_processing := PBool true;
                  max_workers := PInt 0;
                  dry_run := PBool false;
                  sonarr_enabled := true;
                  sonarr_api_key := PStr "key";
                  sonarr_host := PStr "http://sonarr:8989";
                  plex_enabled := false;
                  plex_url := PNone;
                  plex_token := PNone |};
     sonarr := Some a_manager;
     plex := None |}.

(** *** Timestamps as Sonarr writes them *)

Definition digit_char (x : Z) : ascii := ascii_of_nat (48 + Z.to_nat x).

(** A number below 100 in two digits, and one below 10000 in four. *)
Definition two_digits (n : Z) (rest : string) : string :=
  String (digit_char (n / 10)) (String (digit_char (n mod 10)) rest).

Definition four_digits (n : Z) (rest : string) : string :=
  two_digits (n / 100) (two_digits (n mod 100) rest).

(** [t], written in the pattern [YYYY-MM-DDTHH:MM:SSZ]. *)
Definition written (t : datetime) : string :=
  four_digits (year t) (String "-" (two_digits (month t) (String "-" (two_digits (day t)
  (String "T" (two_digits (hour t) (String ":" (two_digits (minute t) (String ":"
  (two_digits (second t) "Z")))))))))).

(** A date and time of the calendar, to the second, with a year of four
    digits. *)
Definition on_calendar (t : datetime) : Prop :=
  1000 <= year t <= 9999
  /\ 1 <= month t <= 12
  /\ 1 <= day t <= _days_in_month (year t) (month t)
  /\ 0 <= hour t <= 23
  /\ 0 <= minute t <= 59
  /\ 0 <= second t <= 59
  /\ microsecond t = 0.

Definition midsummer : datetime := mkdatetime 2024 6 21 18 30 5 0.

(** *** Dates and day numbers *)

(** The last part of [_ord2ymd]: the month and the day of the month for
    the offset [n] from the first of January. *)
Definition month_and_day (leapyear : bool) (n : Z) : Z * Z :=
  let m := Z.shiftr (n + 50) 5 in
  let preceding := month_entry _DAYS_BEFORE_MONTH m
                   + (if (2 <? m) && leapyear then 1 else 0) in
  if n <? preceding then
    let m := m - 1 in
    let preceding := preceding
      - (month_entry _DAYS_IN_MONTH m + (if (m =? 2) && leapyear then 1 else 0)) in
    (m, n - preceding + 1)
  else (m, n - preceding + 1).

Definition month_and_day_ok (leapyear : bool) (n : Z) : bool :=
  let m := fst (month_and_day leapyear n) in
  let d := snd (month_and_day leapyear n) in
  (1 <=? m) && (m <=? 12) && (1 <=? d)
  && (d <=? (if (m =? 2) && leapyear then 29 else month_entry _DAYS_IN_MONTH m))
  && (month_entry _DAYS_BEFORE_MONTH m + (if (2 <? m) && leapyear then 1 else 0) + d
      =? n + 1).

(** The month and the day are those of a date of the calendar. *)
Definition date_ok (y m d : Z) : Prop := 1 <= m <= 12 /\ 1 <= d <= _days_in_month y m.

Definition date_before (y m d y' m' d' : Z) : Prop :=
  y < y' \/ (y = y' /\ m < m') \/ (y = y' /\ m = m' /\ d < d').

(** [t.toordinal()]: the number of the day of [t], the first of January
    of the year 1 being day 1. *)
Definition toordinal (t : datetime) : Z := _ymd2ord (year t) (month t) (day t).

(** The date of [t] is a date of the calendar that a [datetime] can hold. *)
Definition calendar_date (t : datetime) : Prop :=
  1 <= year t <= 9999 /\ date_ok (year t) (month t) (day t).

Definition same_time_of_day (a b : datetime) : Prop :=
  hour a = hour b /\ minute a = minute b /\ second a = second b
  /\ microsecond a = microsecond b.

(** * Properties *)

(** ** Reasoning about statements *)

Lemma bind_run {A B} (m : M A) (f : A -> M B) (s : state) :
  (m ≫= f) s = match m s with
               | (Ret a, s') => f a s'
               | (Raise e, s') => (Raise e, s')
               end.
Proof. reflexivity. Qed.

Lemma bind_returns {A B} (m : M A) (f : A -> M B) s a s' :
  m s = (Ret a, s') -> (m ≫= f) s = f a s'.
Proof. intros H. rewrite bind_run, H. reflexivity. Qed.

Lemma bind_raises {A B} (m : M A) (f : A -> M B) s e s' :
  m s = (Raise e, s') -> (m ≫= f) s = (Raise e, s').
Proof. intros H. rewrite bind_run, H. reflexivity. Qed.

Ltac run_step :=
  unfold mbind, M_bind, mret, M_ret, res_bind, res_ret, lift, raise,
    logger_info, logger_error, emit, try_except; simpl.

(** ** The aggregate count (lines 235-245) *)

Lemma sum_from (l : list Z) (a : Z) : fold_left Z.add l a = a + sum l.
Proof.
  unfold sum. revert a.
  induction l as [|x l IH]; intros a; simpl; [lia|].
  rewrite (IH (a + x)), (IH (0 + x)). lia.
Qed.

Lemma sum_cons (x : Z) (l : list Z) : sum (x :: l) = x + sum l.
Proof. unfold sum at 1. simpl. apply sum_from. Qed.

Lemma count_collected_cons total r results :
  count_collected total (r :: results) = count_collected (count_one total r) results.
Proof.
  unfold count_collected, count_one.
  destruct r; simpl; [rewrite sum_cons; lia | reflexivity].
Qed.

(** The count of the true results of the collected list is the count
    that the loop reaches by adding one after each true result. *)
Lemma count_collected_in_loop (total_processed : Z) (results : list bool) :
  count_collected total_processed results = count_in_loop total_processed results.
Proof.
  revert total_processed.
  induction results as [|r results IH]; intros total_processed.
  - unfold count_collected, count_in_loop, sum. simpl. lia.
  - rewrite count_collected_cons. unfold count_in_loop. simpl. apply IH.
Qed.

(** The sequential loop of the model computes [count_in_loop] of the
    results of its calls, and leaves the state the calls leave. *)
Lemma sequential_loop_counts {A} (f : A -> M bool) (l : list A) :
  forall total s results s',
    executor_map f l s = (Ret results, s') ->
    fold_each l total (fun total x => result ← f x; mret (count_one total result)) s
    = (Ret (count_in_loop total results), s').
Proof.
  induction l as [|x l IH]; intros total s results s' H; simpl in *.
  - inversion H; subst. reflexivity.
  - rewrite !bind_run.
    destruct (f x s) as [[r|e] s1] eqn:Hf;
      destruct (executor_map f l s1) as [[rs|e'] s2] eqn:Hm;
      simpl in H; inversion H; subst.
    simpl. rewrite (IH _ _ _ _ Hm). reflexivity.
Qed.

(** The two branches of [process_episodes], the outcomes of the calls
    of [process_episode] being [results]. *)
Lemma process_episodes_parallel w self manager episodes total s results s' :
  truthy (parallel_processing (config self)) = true ->
  ThreadPoolExecutor (max_workers (config self)) = Ret tt ->
  executor_map (fun ep => process_episode w manager ep (dry_run (config self)))
    episodes s = (Ret results, s') ->
  process_episodes w self manager episodes total s
  = (Ret (count_collected total results), s').
Proof.
  intros Hpar Hpool Hmap. unfold process_episodes. rewrite Hpar.
  rewrite bind_run. unfold lift. rewrite Hpool.
  rewrite bind_run, Hmap. reflexivity.
Qed.

Lemma process_episodes_sequential w self manager episodes total s results s' :
  truthy (parallel_processing (config self)) = false ->
  executor_map (fun ep => process_episode w manager ep (dry_run (config self)))
    episodes s = (Ret results, s') ->
  process_episodes w self manager episodes total s
  = (Ret (count_in_loop total results), s').
Proof.
  intros Hpar Hmap. unfold process_episodes. rewrite Hpar.
  apply (sequential_loop_counts
           (fun ep => process_episode w manager ep (dry_run (config self)))).
  exact Hmap.
Qed.

(** The calls for a batch whose outcomes are [results] return them, in
    the order of the episodes. *)
Lemma executor_map_outcomes w manager dry episodes results :
  Forall2 (outcome w manager dry) episodes results ->
  forall s, exists s',
    executor_map (fun ep => process_episode w manager ep dry) episodes s = (Ret results, s').
Proof.
  induction 1 as [|episode result episodes results Hout _ IH]; intros s; simpl.
  - by exists s.
  - specialize (Hout s).
    destruct (process_episode w manager episode dry s) as [r s1]. simpl in Hout. subst r.
    destruct (IH s1) as [s2 ->]. by exists s2.
Qed.

(** C10. For every batch and every vector of outcomes of its episodes,
    the parallel branch of the orchestrator, which maps the pool over the
    batch and counts the true results of the collected list, and the
    sequential branch, which adds one after each true result, return the
    same count: [total_processed] and one for each true outcome. *)
Theorem parallel_and_sequential_counts_agree (w : world) (pooled looped : MediaCleaner)
    (manager : SonarrManager) (episodes : list pyval) (results : list bool)
    (total_processed : Z) (s : state) :
  truthy (parallel_processing (config pooled)) = true ->
  ThreadPoolExecutor (max_workers (config pooled)) = Ret tt ->
  truthy (parallel_processing (config looped)) = false ->
  dry_run (config looped) = dry_run (config pooled) ->
  Forall2 (outcome w manager (dry_run (config pooled))) episodes results ->
  fst (process_episodes w pooled manager episodes total_processed s)
  = Ret (total_processed + sum (ones results))
  /\ fst (process_episodes w looped manager episodes total_processed s)
     = Ret (total_processed + sum (ones results)).
Proof.
  intros Hpar Hpool Hseq Hdry Hout.
  destruct (executor_map_outcomes _ _ _ _ _ Hout s) as [s' Hmap].
  split.
  - by rewrite (process_episodes_parallel _ _ _ _ total_processed _ _ _ Hpar Hpool Hmap).
  - rewrite <- Hdry in Hmap.
    rewrite (process_episodes_sequential _ _ _ _ total_processed _ _ _ Hseq Hmap).
    by rewrite <- count_collected_in_loop.
Qed.

Lemma parallel_and_sequential_counts_agree_witness :
  fst (process_episodes sonarr_down (a_cleaner false) a_manager [E1; PDict ∅; E2] 5 fresh)
  = Ret 7
  /\ fst (process_episodes sonarr_down (one_by_one false) a_manager [E1; PDict ∅; E2] 5 fresh)
     = Ret 7.
Proof.
  apply (parallel_and_sequential_counts_agree sonarr_down (a_cleaner false)
           (one_by_one false) a_manager [E1; PDict ∅; E2] [true; false; true] 5 fresh);
    try reflexivity.
  repeat constructor; intros s; reflexivity.
Defined.

(** ** [process_episode] *)

(** C6. With a true [dry_run], [process_episode] returns [True] for every
    episode, and all it does is log one line, which holds the title of the
    episode (or [Unknown]) and the words [Dry run]: no request is issued. *)
Theorem process_episode_dry_run (w : world) (self : SonarrManager)
    (episode : gmap string pyval) (dry_run : pyval) (s : state) :
  truthy dry_run = true ->
  process_episode w self (PDict episode) dry_run s
  = (Ret true,
     say s [LogInfo [Lit "Processed Sonarr episode: ";
                     Val (default (PStr "Unknown") (episode !! "title"));
                     Lit " ("; Lit "Dry run"; Lit ")"]]).
Proof.
  intros Hdry. unfold process_episode. run_step. rewrite Hdry. reflexivity.
Qed.

Lemma process_episode_dry_run_witness :
  process_episode sonarr_down a_manager (PDict an_episode) (PBool true) fresh
  = (Ret true,
     say fresh [LogInfo [Lit "Processed Sonarr episode: ";
                         Val (default (PStr "Unknown") (an_episode !! "title"));
                         Lit " ("; Lit "Dry run"; Lit ")"]]).
Proof. apply (process_episode_dry_run sonarr_down a_manager an_episode (PBool true) fresh). reflexivity. Defined.

(** What [process_episode] does without [dry_run] when both calls come
    back with a response: the statuses of the responses are not looked at. *)
Lemma process_episode_ignores_status (w : world) (self : SonarrManager)
    (episode : gmap string pyval) (id file_id : pyval) (s : state)
    (st1 st2 : Z) (b1 b2 : pyval) :
  episode !! "id" = Some id ->
  episode !! "episodeFileId" = Some file_id ->
  let unmonitored := PDict (<["monitored" := PBool false]> episode) in
  let put := Http (PUT [Val (host self); Lit "/api/v3/episode/"; Val id]
                       (_get_headers self) unmonitored) in
  let del := Http (DELETE [Val (host self); Lit "/api/v3/episodefile/"; Val file_id]
                          (_get_headers self)) in
  http w (trace s ++ [put]) = Response st1 b1 ->
  http w ((trace s ++ [put]) ++ [del]) = Response st2 b2 ->
  fst (process_episode w self (PDict episode) (PBool false) s) = Ret true.
Proof.
  intros Hid Hfile unmonitored put del Hput Hdel.
  unfold process_episode, requests_call. run_step.
  rewrite !lookup_insert_ne by done. rewrite Hid, Hfile. simpl.
  fold unmonitored. fold put. rewrite Hput. simpl.
  fold del. rewrite Hdel. reflexivity.
Qed.

(** C2, at the failing input.  The episode is processed without
    [dry_run] and Sonarr answers both the update and the delete with
    status 500: [process_episode] logs the episode as deleted and
    returns [True]. *)
Theorem process_episode_true_on_http_500 :
  process_episode sonarr_down a_manager (PDict an_episode) (PBool false) fresh
  = (Ret true,
     say fresh
       [Http (PUT [Val (PStr "http://sonarr:8989"); Lit "/api/v3/episode/"; Val (PInt 7)]
                  (_get_headers a_manager)
                  (PDict (<["monitored" := PBool false]> an_episode)));
        Http (DELETE [Val (PStr "http://sonarr:8989"); Lit "/api/v3/episodefile/";
                      Val (PInt 70)] (_get_headers a_manager));
        LogInfo [Lit "Processed Sonarr episode: "; Val (PStr "Monday");
                 Lit " ("; Lit "Deleted"; Lit ")"]]).
Proof. vm_compute. reflexivity. Qed.

(** ** [_load_config] *)

(** C3, at the failing input.  [data['performance']] raises [KeyError]
    when the section is absent, and the configuration is rejected. *)
Theorem load_config_without_performance_exits :
  _load_config (Ret no_performance)
  = SystemExit [Lit "Failed to load configuration: "; Exc (KeyError "performance")].
Proof. vm_compute. reflexivity. Qed.

(** The same document with an empty [performance] section is accepted,
    with the documented defaults. *)
Lemma load_config_with_empty_performance :
  match no_performance with
  | PDict d =>
      exists config,
        _load_config (Ret (PDict (<["performance" := PDict ∅]> d))) = Started config
        /\ parallel_processing config = PBool true
        /\ max_workers config = PInt 4
  | _ => False
  end.
Proof. simpl. eexists. split; [vm_compute; reflexivity|]. split; reflexivity. Qed.

(** Whatever else the document holds, a mapping with a usable [cleanup]
    section and no [performance] key is rejected. *)
Lemma load_config_needs_performance (data : gmap string pyval) (cleanup : gmap string pyval) :
  data !! "cleanup" = Some (PDict cleanup) ->
  is_Some (cleanup !! "days_threshold") ->
  is_Some (cleanup !! "media_root") ->
  data !! "performance" = None ->
  _load_config (Ret (PDict data))
  = SystemExit [Lit "Failed to load configuration: "; Exc (KeyError "performance")].
Proof.
  intros Hc [d Hd] [r Hr] Hp.
  unfold _load_config, build_config, subscript2, get2. run_step.
  rewrite Hc. simpl. rewrite Hd, Hr. simpl. rewrite Hp. reflexivity.
Qed.

(** ** Fetching from Sonarr *)

Section Fetch.
Context {A : Type} (w : world) (req : request) (k : pyval -> res A)
        (handler : exn -> M A) (s : state).

Let fetch : M A := fetching w req k handler.

Lemma fetch_delivered status body :
  http w (trace s ++ [Http req]) = Response status body ->
  accepted status ->
  (forall e, k body = Raise e -> is_RequestException e = false) ->
  fetch s = (k body, say s [Http req]).
Proof.
  unfold accepted. intros Hw Hst Hk.
  unfold fetch, fetching, requests_call, raise_for_status. run_step.
  rewrite Hw. simpl. rewrite Hst. simpl.
  destruct (k body) as [a|e] eqn:Hb; [reflexivity|].
  rewrite (Hk e eq_refl). reflexivity.
Qed.

Lemma fetch_failed detail :
  http w (trace s ++ [Http req]) = Failed detail ->
  fetch s = handler (ConnectionError detail) (say s [Http req]).
Proof.
  intros Hw. unfold fetch, fetching, requests_call. run_step. rewrite Hw. reflexivity.
Qed.

Lemma fetch_refused status body :
  http w (trace s ++ [Http req]) = Response status body ->
  ~ accepted status ->
  fetch s = handler (HTTPError status) (say s [Http req]).
Proof.
  unfold accepted. intros Hw Hst. apply not_false_is_true in Hst.
  unfold fetch, fetching, requests_call, raise_for_status. run_step.
  rewrite Hw. simpl. rewrite Hst. reflexivity.
Qed.
End Fetch.

(** *** List comprehensions *)

Section Comprehension.
Variable cond : pyval -> res bool.

Lemma comprehension_elem l out :
  comprehension cond l = Ret out ->
  forall x, x ∈ out <-> x ∈ l /\ cond x = Ret true.
Proof.
  revert out. induction l as [|y l IH]; intros out H x; simpl in H.
  - inversion H; subst. split; [intros Hx | intros [Hx _]]; inversion Hx.
  - destruct (cond y) as [keep|e] eqn:Hy; simpl in H; [|discriminate].
    destruct (comprehension cond l) as [tail|e] eqn:Hl; simpl in H; [|discriminate].
    inversion H; subst; clear H. specialize (IH tail eq_refl x).
    destruct keep.
    + rewrite !elem_of_cons, IH. split.
      * intros [->|[Hx Hc]]; auto.
      * intros [[->|Hx] Hc]; auto.
    + rewrite elem_of_cons, IH. split.
      * intros [Hx Hc]; auto.
      * intros [[->|Hx] Hc]; [congruence | auto].
Qed.

Lemma comprehension_sublist l out :
  comprehension cond l = Ret out -> out `sublist_of` l.
Proof.
  revert out. induction l as [|y l IH]; intros out H; simpl in H.
  - inversion H. constructor.
  - destruct (cond y) as [keep|e]; simpl in H; [|discriminate].
    destruct (comprehension cond l) as [tail|e]; simpl in H; [|discriminate].
    inversion H; subst; clear H.
    destruct keep; [apply sublist_skip | apply sublist_cons]; auto.
Qed.

Lemma comprehension_returns l :
  Forall (fun x => exists b, cond x = Ret b) l ->
  exists out, comprehension cond l = Ret out.
Proof.
  induction 1 as [|y l [b Hb] _ [tail IH]]; simpl; [eauto|].
  rewrite Hb, IH. simpl. eauto.
Qed.

Lemma comprehension_raises good bad rest e :
  Forall (fun x => exists b, cond x = Ret b) good ->
  cond bad = Raise e ->
  comprehension cond (good ++ bad :: rest) = Raise e.
Proof.
  intros Hgood Hbad.
  induction Hgood as [|y l [b Hb] _ IH]; simpl.
  - rewrite Hbad. reflexivity.
  - rewrite Hb, IH. reflexivity.
Qed.

Lemma comprehension_keep x l out :
  cond x = Ret true ->
  comprehension cond l = Ret out ->
  (l' ← iterate (PList (x :: l)); comprehension cond l') = Ret (x :: out).
Proof. intros Hx Hl. simpl. rewrite Hx, Hl. reflexivity. Qed.

Lemma comprehension_raised l e :
  comprehension cond l = Raise e -> exists x, x ∈ l /\ cond x = Raise e.
Proof.
  induction l as [|y l IH]; simpl; [discriminate|].
  destruct (cond y) as [keep|e'] eqn:Hy; simpl.
  - destruct (comprehension cond l) as [tail|e'] eqn:Hl; simpl; [discriminate|].
    intros H; inversion H; subst.
    destruct (IH eq_refl) as (x & Hx & Hc). exists x. split; [by right | done].
  - intros H; inversion H; subst. exists y. split; [by left | done].
Qed.
End Comprehension.

Lemma fetch_fails_request w s req e : fetch_fails w s req e -> is_RequestException e = true.
Proof. intros [(d & _ & ->)|(st & b & _ & _ & ->)]; reflexivity. Qed.

(** What the conditions of the comprehensions raise is not a
    [RequestException]. *)
Lemma is_daily_raises x e : is_daily x = Raise e -> is_RequestException e = false.
Proof.
  unfold is_daily, subscript.
  destruct x as [| | | | |d]; simpl; try (intros H; inversion H; reflexivity).
  destruct (d !! "seriesType"); simpl; intros H; inversion H; reflexivity.
Qed.

Lemma strptime_raises v e : strptime v = Raise e -> e = TypeError \/ e = ValueError.
Proof.
  destruct v as [| | |txt| |]; simpl; try (intros H; inversion H; auto).
  revert H. unfold strptime_string.
  repeat match goal with
         | |- context [match ?x with _ => _ end] => destruct x
         end; intros H; inversion H; auto.
Qed.

Lemma air_timestamp_raises x e :
  air_timestamp x = Raise e ->
  e = KeyError "airDateUtc" \/ e = TypeError \/ e = ValueError.
Proof.
  unfold air_timestamp, subscript.
  destruct x as [| | | | |d]; simpl; try (intros H; inversion H; auto).
  revert H. destruct (d !! "airDateUtc") as [a|]; simpl; intros H.
  - apply strptime_raises in H. tauto.
  - inversion H; auto.
Qed.

Lemma air_timestamp_dict x t : air_timestamp x = Ret t -> exists d, x = PDict d.
Proof. destruct x; simpl; try discriminate. eauto. Qed.

Lemma to_delete_raises th x e :
  to_delete th x = Raise e -> air_timestamp x = Raise e.
Proof.
  unfold to_delete. destruct (air_timestamp x) as [t|e'] eqn:Ht; simpl;
    [|intros H; inversion H; reflexivity].
  destruct (air_timestamp_dict _ _ Ht) as [d ->].
  destruct (datetime_lt t th); simpl; discriminate.
Qed.

Lemma to_delete_not_request th x e :
  to_delete th x = Raise e -> is_RequestException e = false.
Proof.
  intros H. apply to_delete_raises, air_timestamp_raises in H.
  destruct H as [->|[->| ->]]; reflexivity.
Qed.

Lemma filter_not_request (cond : pyval -> res bool) body e :
  (forall x e, cond x = Raise e -> is_RequestException e = false) ->
  (l ← iterate body; comprehension cond l) = Raise e ->
  is_RequestException e = false.
Proof.
  intros Hc. destruct (iterate body) as [l|e'] eqn:Hi; simpl.
  - intros H. apply comprehension_raised in H as (x & _ & Hx). eauto.
  - intros H; inversion H; subst.
    destruct body; simpl in Hi; inversion Hi; reflexivity.
Qed.

(** *** [get_daily_series] *)

Lemma get_daily_series_delivered w self s status body :
  http w (trace s ++ [Http (series_request self)]) = Response status body ->
  accepted status ->
  get_daily_series w self s
  = (l ← iterate body; comprehension is_daily l, say s [Http (series_request self)]).
Proof.
  intros Hw Hst. unfold get_daily_series.
  apply (fetch_delivered w (series_request self)
           (fun body => l ← iterate body; comprehension is_daily l) _ s status body Hw Hst).
  intros e. apply filter_not_request. apply is_daily_raises.
Qed.

Lemma get_daily_series_failed w self s e :
  fetch_fails w s (series_request self) e ->
  get_daily_series w self s
  = (Ret [], say s [Http (series_request self);
                    LogError [Lit "Failed to fetch series from Sonarr: "; Exc e]]).
Proof.
  set (k := fun body => l ← iterate body; comprehension is_daily l).
  set (handler := fun e : exn =>
         _ ← logger_error [Lit "Failed to fetch series from Sonarr: "; Exc e];
         mret ([] : list pyval)).
  intros [(d & Hw & ->)|(st & b & Hw & Hst & ->)].
  - etrans; [exact (fetch_failed w (series_request self) k handler s d Hw)|].
    unfold handler, say. run_step. rewrite <- app_assoc. reflexivity.
  - etrans; [exact (fetch_refused w (series_request self) k handler s st b Hw Hst)|].
    unfold handler, say. run_step. rewrite <- app_assoc. reflexivity.
Qed.

Lemma is_daily_true x : is_daily x = Ret true -> subscript x "seriesType" = Ret (PStr "daily").
Proof.
  unfold is_daily. destruct (subscript x "seriesType") as [t|e]; simpl; [|discriminate].
  intros H. inversion H as [Ht]. destruct t; simpl in Ht; try discriminate.
  apply String.eqb_eq in Ht. by subst.
Qed.

Lemma is_daily_returns x t : subscript x "seriesType" = Ret t -> exists b, is_daily x = Ret b.
Proof. intros H. unfold is_daily. rewrite H. simpl. eauto. Qed.

(** C8. The list returned by [get_daily_series] is a subsequence of the
    fetched list [series], each of whose records carries a format tag, and
    the tag of every element of it is the string [daily]; it is empty when
    [series] is.  When the fetch fails, which stands for the empty list,
    the empty list is returned and nothing is raised. *)
Theorem daily_series_filter (w : world) (self : SonarrManager) (s : state)
    (series : list pyval) :
  (exists status,
      http w (trace s ++ [Http (series_request self)]) = Response status (PList series)
      /\ accepted status
      /\ Forall (fun x => exists t, subscript x "seriesType" = Ret t) series)
  \/ (series = [] /\ exists e, fetch_fails w s (series_request self) e) ->
  exists out evs,
    get_daily_series w self s = (Ret out, say s evs)
    /\ out `sublist_of` series
    /\ Forall (fun x => subscript x "seriesType" = Ret (PStr "daily")) out
    /\ (series = [] -> out = []).
Proof.
  intros [(status & Hw & Hst & Htags)|(-> & e & Hfail)].
  - destruct (comprehension_returns is_daily series) as [out Hout].
    { eapply Forall_impl; [exact Htags|]. intros x [t Ht]. eapply is_daily_returns, Ht. }
    exists out, [Http (series_request self)].
    rewrite (get_daily_series_delivered w self s status _ Hw Hst). simpl.
    rewrite Hout. split; [reflexivity|]. split; [|split].
    + eapply comprehension_sublist, Hout.
    + apply Forall_forall. intros x Hx.
      apply (comprehension_elem _ _ _ Hout) in Hx as [_ Hx]. by apply is_daily_true.
    + intros ->. simpl in Hout. by inversion Hout.
  - eexists [], _. rewrite (get_daily_series_failed w self s e Hfail).
    split; [reflexivity|]. split; [constructor|]. split; [constructor | done].
Qed.

Lemma daily_series_filter_witness :
  exists out evs,
    get_daily_series two_series a_manager fresh = (Ret out, say fresh evs)
    /\ out `sublist_of` [standard_show; daily_show]
    /\ Forall (fun x => subscript x "seriesType" = Ret (PStr "daily")) out
    /\ ([standard_show; daily_show] = [] -> out = []).
Proof.
  apply (daily_series_filter two_series a_manager fresh [standard_show; daily_show]).
  left. exists 200. split; [reflexivity|]. split; [reflexivity|].
  repeat constructor; eexists; vm_compute; reflexivity.
Defined.

Example get_daily_series_two_series :
  fst (get_daily_series two_series a_manager fresh) = Ret [daily_show].
Proof. vm_compute. reflexivity. Qed.

(** *** [get_episodes_to_delete] *)

Lemma get_episodes_delivered w self sid th s status body :
  http w (trace s ++ [Http (episode_request self sid)]) = Response status body ->
  accepted status ->
  get_episodes_to_delete w self sid th s
  = (l ← iterate body; comprehension (to_delete th) l,
     say s [Http (episode_request self sid)]).
Proof.
  intros Hw Hst. unfold get_episodes_to_delete.
  apply (fetch_delivered w (episode_request self sid)
           (fun body => l ← iterate body; comprehension (to_delete th) l)
           _ s status body Hw Hst).
  intros e. apply filter_not_request. apply to_delete_not_request.
Qed.

Lemma get_episodes_failed w self sid th s e :
  fetch_fails w s (episode_request self sid) e ->
  get_episodes_to_delete w self sid th s
  = (Ret [], say s [Http (episode_request self sid);
                    LogError [Lit "Failed to fetch episodes for series "; Val sid;
                              Lit ": "; Exc e]]).
Proof.
  set (k := fun body => l ← iterate body; comprehension (to_delete th) l).
  set (handler := fun e : exn =>
         _ ← logger_error [Lit "Failed to fetch episodes for series "; Val sid;
                           Lit ": "; Exc e];
         mret ([] : list pyval)).
  intros [(d & Hw & ->)|(st & b & Hw & Hst & ->)].
  - etrans; [exact (fetch_failed w (episode_request self sid) k handler s d Hw)|].
    unfold handler, say. run_step. rewrite <- app_assoc. reflexivity.
  - etrans; [exact (fetch_refused w (episode_request self sid) k handler s st b Hw Hst)|].
    unfold handler, say. run_step. rewrite <- app_assoc. reflexivity.
Qed.

Lemma to_delete_true cutoff x :
  to_delete cutoff x = Ret true <-> file_present x = true /\ aired_before cutoff x.
Proof.
  unfold to_delete, aired_before, file_present.
  destruct (air_timestamp x) as [t|e] eqn:Ht; simpl.
  - destruct (air_timestamp_dict _ _ Ht) as [d ->]. simpl.
    destruct (datetime_lt t cutoff) eqn:Hlt; simpl.
    + split.
      * intros H; inversion H as [Hf]. rewrite Hf. eauto.
      * intros [-> _]. reflexivity.
    + split; [discriminate|].
      intros [_ (t' & Ht' & Hlt')]. inversion Ht'; subst. congruence.
  - split; [discriminate|]. intros [_ (t' & Ht' & _)]. discriminate.
Qed.

Lemma to_delete_returns cutoff x t :
  air_timestamp x = Ret t -> exists b, to_delete cutoff x = Ret b.
Proof.
  intros Ht. unfold to_delete. rewrite Ht. simpl.
  destruct (air_timestamp_dict _ _ Ht) as [d ->].
  destruct (datetime_lt t cutoff); simpl; eauto.
Qed.

(** C4. When the episodes of a series are fetched and each of them has
    an air timestamp, [get_episodes_to_delete] returns a list, and an
    episode is in it if and only if it is one of the fetched episodes, its
    file-presence flag is true and it aired strictly before the cutoff.  An
    episode whose flag is false is not in the list, however old it is. *)
Theorem eligible_iff_file_present_and_aired_before (w : world) (self : SonarrManager)
    (series_id : pyval) (cutoff : datetime) (s : state) (status : Z)
    (episodes : list pyval) :
  http w (trace s ++ [Http (episode_request self series_id)])
  = Response status (PList episodes) ->
  accepted status ->
  Forall (fun episode => exists t, air_timestamp episode = Ret t) episodes ->
  exists eligible,
    get_episodes_to_delete w self series_id cutoff s
    = (Ret eligible, say s [Http (episode_request self series_id)])
    /\ (forall episode,
          episode ∈ eligible
          <-> episode ∈ episodes /\ file_present episode = true
              /\ aired_before cutoff episode)
    /\ (forall episode, file_present episode = false -> episode ∉ eligible).
Proof.
  intros Hw Hst Hair.
  destruct (comprehension_returns (to_delete cutoff) episodes) as [eligible Hel].
  { eapply Forall_impl; [exact Hair|]. intros x [t Ht]. eapply to_delete_returns, Ht. }
  exists eligible. rewrite (get_episodes_delivered w self series_id cutoff s status _ Hw Hst).
  simpl. rewrite Hel.
  assert (Hiff : forall episode,
             episode ∈ eligible
             <-> episode ∈ episodes /\ file_present episode = true
                 /\ aired_before cutoff episode).
  { intros x. rewrite (comprehension_elem _ _ _ Hel x), to_delete_true. tauto. }
  split; [reflexivity|]. split; [exact Hiff|].
  intros x Hfalse Hx. apply Hiff in Hx as (_ & Htrue & _). congruence.
Qed.

Example minus_days_cutoff :
  minus_days (mkdatetime 2024 3 1 12 0 0 0) (PInt 30) = Ret the_cutoff.
Proof. vm_compute. reflexivity. Qed.

Lemma eligible_iff_file_present_and_aired_before_witness :
  exists eligible,
    get_episodes_to_delete three_episodes a_manager (PInt 1) the_cutoff fresh
    = (Ret eligible, say fresh [Http (episode_request a_manager (PInt 1))])
    /\ (forall episode,
          episode ∈ eligible
          <-> episode ∈ [E1; E2; E3] /\ file_present episode = true
              /\ aired_before the_cutoff episode)
    /\ (forall episode, file_present episode = false -> episode ∉ eligible).
Proof.
  apply (eligible_iff_file_present_and_aired_before three_episodes a_manager (PInt 1)
           the_cutoff fresh 200 [E1; E2; E3]).
  - reflexivity.
  - reflexivity.
  - repeat constructor; eexists; vm_compute; reflexivity.
Defined.

Example eligible_in_scenario :
  fst (get_episodes_to_delete three_episodes a_manager (PInt 1) the_cutoff fresh)
  = Ret [E1].
Proof. vm_compute. reflexivity. Qed.

Lemma say_say s evs evs' : say (say s evs) evs' = say s (evs ++ evs').
Proof. unfold say. simpl. by rewrite app_assoc. Qed.

Lemma say_nil s : say s [] = s.
Proof. destruct s. unfold say. simpl. by rewrite app_nil_r. Qed.

Lemma emit_run ev s : emit ev s = (Ret tt, say s [ev]).
Proof. reflexivity. Qed.

(** *** A failed fetch of episodes (C7) *)

Lemma process_serie_no_episodes w self manager cutoff total serie sid s s' :
  subscript serie "id" = Ret sid ->
  get_episodes_to_delete w manager sid cutoff s = (Ret [], s') ->
  process_serie w self manager cutoff total serie s = (Ret total, s').
Proof.
  intros Hid Hget. unfold process_serie.
  rewrite bind_run. unfold lift. rewrite Hid.
  rewrite bind_run, Hget. reflexivity.
Qed.

(** C7. When the fetch of the episodes of a series fails in the
    transport (or with an error status), [get_episodes_to_delete] returns
    the empty list and logs the error; the loop over the series then goes
    on with the next series, the count unchanged, and raises nothing
    for this one. *)
Theorem episode_fetch_failure_is_contained (w : world) (self : MediaCleaner)
    (manager : SonarrManager) (cutoff : datetime) (serie series_id : pyval)
    (rest : list pyval) (total_processed : Z) (s : state) (e : exn) :
  subscript serie "id" = Ret series_id ->
  fetch_fails w s (episode_request manager series_id) e ->
  let s' := say s [Http (episode_request manager series_id);
                   LogError [Lit "Failed to fetch episodes for series "; Val series_id;
                             Lit ": "; Exc e]] in
  get_episodes_to_delete w manager series_id cutoff s = (Ret [], s')
  /\ fold_each (serie :: rest) total_processed (process_serie w self manager cutoff) s
     = fold_each rest total_processed (process_serie w self manager cutoff) s'.
Proof.
  intros Hid Hfail s'.
  pose proof (get_episodes_failed w manager series_id cutoff s e Hfail) as Hget.
  split; [exact Hget|].
  simpl. rewrite bind_run.
  rewrite (process_serie_no_episodes w self manager cutoff total_processed serie
             series_id s s' Hid Hget).
  reflexivity.
Qed.

Example a_cleaner_init dry :
  MediaCleaner_init true None (a_config dry) = Ret (a_cleaner dry).
Proof. reflexivity. Qed.

Lemma episode_fetch_failure_is_contained_witness :
  let s' := say fresh
              [Http (episode_request a_manager (PInt 1));
               LogError [Lit "Failed to fetch episodes for series "; Val (PInt 1);
                         Lit ": "; Exc (ConnectionError "connection refused")]] in
  get_episodes_to_delete unreachable a_manager (PInt 1) the_cutoff fresh = (Ret [], s')
  /\ fold_each [daily_show; daily_show] 0
       (process_serie unreachable (a_cleaner false) a_manager the_cutoff) fresh
     = fold_each [daily_show] 0
         (process_serie unreachable (a_cleaner false) a_manager the_cutoff) s'.
Proof.
  apply (episode_fetch_failure_is_contained unreachable (a_cleaner false) a_manager
           the_cutoff daily_show (PInt 1) [daily_show] 0 fresh
           (ConnectionError "connection refused")).
  - reflexivity.
  - left. exists "connection refused". split; reflexivity.
Defined.

(** *** A record without a usable air date (C9) *)

Lemma missing_or_malformed_raises cutoff episode e :
  missing_or_malformed episode e -> to_delete cutoff episode = Raise e.
Proof.
  intros (d & -> & [[Hnone ->]|(txt & Hsome & Htxt & ->)]);
    unfold to_delete, air_timestamp; simpl.
  - rewrite Hnone. reflexivity.
  - rewrite Hsome. simpl. rewrite Htxt. reflexivity.
Qed.

Lemma get_episodes_raises w self sid cutoff s status good bad rest e :
  http w (trace s ++ [Http (episode_request self sid)])
  = Response status (PList (good ++ bad :: rest)) ->
  accepted status ->
  Forall (fun episode => exists t, air_timestamp episode = Ret t) good ->
  missing_or_malformed bad e ->
  get_episodes_to_delete w self sid cutoff s
  = (Raise e, say s [Http (episode_request self sid)]).
Proof.
  intros Hw Hst Hgood Hbad.
  rewrite (get_episodes_delivered w self sid cutoff s status _ Hw Hst). simpl.
  rewrite (comprehension_raises (to_delete cutoff) good bad rest e); [reflexivity| |].
  - eapply Forall_impl; [exact Hgood|]. intros x [t Ht]. eapply to_delete_returns, Ht.
  - by apply missing_or_malformed_raises.
Qed.

(** C9. Only a [RequestException] is caught in [get_episodes_to_delete].
    When the episodes of the first daily series are delivered and one of
    the records has no [airDateUtc], or one that [strptime] rejects,
    while the records before it are in order, [get_episodes_to_delete]
    raises [KeyError] or [ValueError], and so does [run], which ends
    there: nothing is done after the request for the episodes. *)
Theorem bad_air_date_aborts_run (w : world) (self : MediaCleaner)
    (manager : SonarrManager) (now cutoff : datetime) (s : state)
    (status1 status2 : Z) (serie series_id : pyval) (others good rest : list pyval)
    (bad : pyval) (e : exn) :
  sonarr_enabled (config self) = true ->
  sonarr self = Some manager ->
  minus_days now (days_threshold (config self)) = Ret cutoff ->
  http w (trace s ++ started manager) = Response status1 (PList (serie :: others)) ->
  accepted status1 ->
  subscript serie "seriesType" = Ret (PStr "daily") ->
  subscript serie "id" = Ret series_id ->
  Forall (fun x => exists t, subscript x "seriesType" = Ret t) others ->
  http w (trace s ++ started manager ++ [Http (episode_request manager series_id)])
  = Response status2 (PList (good ++ bad :: rest)) ->
  accepted status2 ->
  Forall (fun episode => exists t, air_timestamp episode = Ret t) good ->
  missing_or_malformed bad e ->
  (e = KeyError "airDateUtc" \/ e = ValueError)
  /\ get_episodes_to_delete w manager series_id cutoff (say s (started manager))
     = (Raise e,
        say s (started manager ++ [Http (episode_request manager series_id)]))
  /\ run w self now s
     = (Raise e,
        say s (started manager ++ [Http (episode_request manager series_id)])).
Proof.
  intros Hen Hmgr Hcut Hw1 Hst1 Hdaily Hid Hothers Hw2 Hst2 Hgood Hbad.
  assert (He : e = KeyError "airDateUtc" \/ e = ValueError).
  { destruct Hbad as (d & _ & [[_ ->]|(txt & _ & _ & ->)]); auto. }
  assert (Hget : get_episodes_to_delete w manager series_id cutoff (say s (started manager))
                 = (Raise e, say s (started manager
                                    ++ [Http (episode_request manager series_id)]))).
  { rewrite <- say_say.
    apply (get_episodes_raises w manager series_id cutoff _ status2 good bad rest e);
      [|done..].
    simpl. rewrite <- app_assoc. exact Hw2. }
  split; [exact He|]. split; [exact Hget|].
  (* the series are fetched *)
  destruct (comprehension_returns is_daily others) as [dailies Hdailies].
  { eapply Forall_impl; [exact Hothers|]. intros x [t Ht]. eapply is_daily_returns, Ht. }
  set (s0 := say s [LogInfo [Lit "Starting media cleanup process..."];
                    LogInfo [Lit "Processing Sonarr content..."]]).
  assert (Hseries : get_daily_series w manager s0
                    = (Ret (serie :: dailies), say s (started manager))).
  { rewrite (get_daily_series_delivered w manager s0 status1 (PList (serie :: others))).
    - assert (Hkeep : is_daily serie = Ret true)
        by (unfold is_daily; rewrite Hdaily; reflexivity).
      rewrite (comprehension_keep is_daily serie others dailies Hkeep Hdailies).
      unfold s0. rewrite say_say. reflexivity.
    - unfold s0. simpl. rewrite <- app_assoc. exact Hw1.
    - exact Hst1. }
  (* the body of the loop raises at the first series *)
  assert (Hserie : process_serie w self manager cutoff 0 serie (say s (started manager))
                   = (Raise e, say s (started manager
                                      ++ [Http (episode_request manager series_id)]))).
  { unfold process_serie. rewrite bind_run. unfold lift. rewrite Hid.
    rewrite bind_run, Hget. reflexivity. }
  unfold run. rewrite bind_run. unfold logger_info at 1. rewrite emit_run.
  rewrite bind_run. unfold lift at 1. rewrite Hcut.
  rewrite bind_run, Hen. rewrite bind_run. unfold logger_info at 1. rewrite emit_run.
  rewrite say_say. simpl app. fold s0.
  rewrite Hmgr. unfold attribute. rewrite bind_run, Hseries.
  simpl fold_each. rewrite bind_run, Hserie. reflexivity.
Qed.

Lemma bad_air_date_aborts_run_witness :
  (KeyError "airDateUtc" = KeyError "airDateUtc" \/ KeyError "airDateUtc" = ValueError)
  /\ get_episodes_to_delete with_unaired a_manager (PInt 1) the_cutoff
       (say fresh (started a_manager))
     = (Raise (KeyError "airDateUtc"),
        say fresh (started a_manager ++ [Http (episode_request a_manager (PInt 1))]))
  /\ run with_unaired (a_cleaner false) first_of_march fresh
     = (Raise (KeyError "airDateUtc"),
        say fresh (started a_manager ++ [Http (episode_request a_manager (PInt 1))])).
Proof.
  apply (bad_air_date_aborts_run with_unaired (a_cleaner false) a_manager first_of_march
           the_cutoff fresh 200 200 daily_show (PInt 1) [] [E1] [E2] unaired
           (KeyError "airDateUtc")).
  - reflexivity.
  - reflexivity.
  - vm_compute. reflexivity.
  - reflexivity.
  - reflexivity.
  - vm_compute. reflexivity.
  - vm_compute. reflexivity.
  - constructor.
  - reflexivity.
  - reflexivity.
  - repeat constructor. eexists. vm_compute. reflexivity.
  - eexists. split; [reflexivity|]. left. split; [vm_compute; reflexivity | reflexivity].
Defined.

(** A timestamp with fractional seconds is rejected too. *)
Example strptime_fraction : strptime (PStr "2024-01-01T00:00:00.000Z") = Raise ValueError.
Proof. vm_compute. reflexivity. Qed.

(** Not every departure from the pattern is rejected. *)
Example strptime_lenient :
  strptime (PStr "2024-1-5t3:4:5z") = Ret (mkdatetime 2024 1 5 3 4 5 0).
Proof. vm_compute. reflexivity. Qed.

(** ** Dry runs (C5) *)

Lemma quiet_lift {A} (r : res A) : quiet (lift r).
Proof. intros s. exists []. by rewrite say_nil. Qed.

Lemma quiet_ret {A} (a : A) : quiet (mret a : M A).
Proof. intros s. exists []. by rewrite say_nil. Qed.

Lemma quiet_raise {A} (e : exn) : quiet (raise e : M A).
Proof. apply quiet_lift. Qed.

Lemma quiet_bind {A B} (m : M A) (f : A -> M B) :
  quiet m -> (forall a, quiet (f a)) -> quiet (m ≫= f).
Proof.
  intros Hm Hf s. rewrite bind_run.
  destruct (Hm s) as (evs & Hs & Hevs).
  destruct (m s) as [[a|e] s1]; simpl in Hs; subst s1.
  - destruct (Hf a (say s evs)) as (evs' & Hs' & Hevs').
    exists (evs ++ evs')%list. rewrite Hs', say_say. split; [done|]. by apply Forall_app.
  - exists evs. done.
Qed.

Lemma quiet_try {A} (body : M A) (caught : exn -> bool) (handler : exn -> M A) :
  quiet body -> (forall e, quiet (handler e)) -> quiet (try_except body caught handler).
Proof.
  intros Hb Hh s. unfold try_except.
  destruct (Hb s) as (evs & Hs & Hevs).
  destruct (body s) as [[a|e] s1]; simpl in Hs; subst s1.
  - exists evs. done.
  - destruct (caught e); [|by exists evs].
    destruct (Hh e (say s evs)) as (evs' & Hs' & Hevs').
    exists (evs ++ evs')%list. rewrite Hs', say_say. split; [done|]. by apply Forall_app.
Qed.

Lemma quiet_for_each {A} (l : list A) (body : A -> M unit) :
  (forall x, quiet (body x)) -> quiet (for_each l body).
Proof.
  intros Hb. induction l as [|x l IH]; simpl.
  - apply quiet_ret.
  - apply quiet_bind; [apply Hb | intros _; exact IH].
Qed.

Lemma quiet_fold_each {A B} (l : list A) (body : B -> A -> M B) :
  (forall acc x, quiet (body acc x)) -> forall acc, quiet (fold_each l acc body).
Proof.
  intros Hb. induction l as [|x l IH]; intros acc; simpl.
  - apply quiet_ret.
  - apply quiet_bind; [apply Hb | intros acc'; apply IH].
Qed.

Lemma quiet_executor_map {A B} (f : A -> M B) (l : list A) :
  (forall x, quiet (f x)) -> quiet (executor_map f l).
Proof.
  intros Hf. induction l as [|x l IH]; simpl.
  - apply quiet_ret.
  - intros s. destruct (Hf x s) as (evs & Hs & Hevs).
    destruct (f x s) as [r s1]; simpl in Hs; subst s1.
    destruct (IH (say s evs)) as (evs' & Hs' & Hevs').
    destruct (executor_map f l (say s evs)) as [rs s2]; simpl in Hs'; subst s2.
    exists (evs ++ evs')%list. simpl. rewrite say_say. split; [done|]. by apply Forall_app.
Qed.

Lemma quiet_emit ev : mutating ev = false -> quiet (emit ev).
Proof. intros Hev s. exists [ev]. split; [reflexivity|]. by constructor. Qed.

Lemma quiet_get w url params key : quiet (requests_call w (GET url params key)).
Proof.
  intros s. exists [Http (GET url params key)]. unfold requests_call.
  split; [|by repeat constructor].
  destruct (http w _); reflexivity.
Qed.

Lemma quiet_raise_for_status response : quiet (raise_for_status response).
Proof.
  unfold raise_for_status. destruct (_ && _); [apply quiet_raise | apply quiet_ret].
Qed.

Lemma quiet_fetch {A} w url params key (k : pyval -> res A) handler :
  (forall e, quiet (handler e)) ->
  quiet (try_except
           (response ← requests_call w (GET url params key);
            _ ← raise_for_status response;
            lift (k (response_json response)))
           is_RequestException handler).
Proof.
  intros Hh. apply quiet_try; [|exact Hh].
  apply quiet_bind; [apply quiet_get|]. intros response.
  apply quiet_bind; [apply quiet_raise_for_status|]. intros _. apply quiet_lift.
Qed.

Lemma quiet_get_daily_series w self : quiet (get_daily_series w self).
Proof.
  apply (quiet_fetch w _ _ _ (fun body => l ← iterate body; comprehension is_daily l)).
  intros e. apply quiet_bind; [by apply quiet_emit | intros _; apply quiet_ret].
Qed.

Lemma quiet_get_episodes_to_delete w self sid cutoff :
  quiet (get_episodes_to_delete w self sid cutoff).
Proof.
  apply (quiet_fetch w _ _ _
           (fun body => l ← iterate body; comprehension (to_delete cutoff) l)).
  intros e. apply quiet_bind; [by apply quiet_emit | intros _; apply quiet_ret].
Qed.

Lemma quiet_process_episode w self episode dry :
  truthy dry = true -> quiet (process_episode w self episode dry).
Proof.
  intros Hdry. unfold process_episode. rewrite Hdry. simpl negb. cbv iota.
  apply quiet_try.
  - apply quiet_bind; [apply quiet_ret|]. intros ep.
    apply quiet_bind; [apply quiet_lift|]. intros title.
    apply quiet_bind; [by apply quiet_emit | intros _; apply quiet_ret].
  - intros e. apply quiet_bind; [apply quiet_lift|]. intros id.
    apply quiet_bind; [by apply quiet_emit | intros _; apply quiet_ret].
Qed.

Lemma quiet_refresh_libraries w self dry :
  truthy dry = true -> quiet (refresh_libraries w self dry).
Proof.
  intros Hdry. unfold refresh_libraries. rewrite Hdry. simpl negb. cbv iota.
  apply quiet_try; [apply quiet_ret|].
  intros e. by apply quiet_emit.
Qed.

Lemma quiet_cleanup_empty_directories self :
  truthy (dry_run (config self)) = true -> quiet (cleanup_empty_directories self).
Proof.
  intros Hdry. unfold cleanup_empty_directories. rewrite Hdry, orb_true_r.
  apply quiet_ret.
Qed.

Lemma quiet_process_episodes w self manager episodes total :
  truthy (dry_run (config self)) = true ->
  quiet (process_episodes w self manager episodes total).
Proof.
  intros Hdry. unfold process_episodes.
  destruct (truthy (parallel_processing (config self))).
  - apply quiet_bind; [apply quiet_lift|]. intros _.
    apply quiet_bind; [|intros results; apply quiet_ret].
    apply quiet_executor_map. intros ep. by apply quiet_process_episode.
  - apply quiet_fold_each. intros acc ep.
    apply quiet_bind; [by apply quiet_process_episode | intros r; apply quiet_ret].
Qed.

Lemma quiet_process_serie w self manager cutoff total serie :
  truthy (dry_run (config self)) = true ->
  quiet (process_serie w self manager cutoff total serie).
Proof.
  intros Hdry. unfold process_serie.
  apply quiet_bind; [apply quiet_lift|]. intros id.
  apply quiet_bind; [apply quiet_get_episodes_to_delete|]. intros [|ep episodes].
  - apply quiet_ret.
  - apply quiet_bind; [apply quiet_lift|]. intros title.
    apply quiet_bind; [by apply quiet_emit|]. intros _.
    by apply quiet_process_episodes.
Qed.

Lemma quiet_run w self now :
  truthy (dry_run (config self)) = true -> quiet (run w self now).
Proof.
  intros Hdry. unfold run.
  apply quiet_bind; [by apply quiet_emit|]. intros _.
  apply quiet_bind; [apply quiet_lift|]. intros cutoff.
  apply quiet_bind.
  { destruct (sonarr_enabled (config self)); [|apply quiet_ret].
    apply quiet_bind; [by apply quiet_emit|]. intros _.
    destruct (sonarr self) as [manager|]; simpl; [|apply quiet_raise].
    apply quiet_bind; [apply quiet_get_daily_series|]. intros series.
    apply quiet_fold_each. intros acc serie. by apply quiet_process_serie. }
  intros total.
  apply quiet_bind.
  { destruct (plex_enabled (config self)); [|apply quiet_ret].
    apply quiet_bind; [by apply quiet_emit|]. intros _.
    destruct (plex self) as [manager|]; simpl; [|apply quiet_raise].
    by apply quiet_refresh_libraries. }
  intros _.
  apply quiet_bind.
  { destruct (truthy (delete_empty_dirs (config self))); [|apply quiet_ret].
    by apply quiet_cleanup_empty_directories. }
  intros _. by apply quiet_emit.
Qed.

(** C5. In a run with a true [dry_run], whatever the backends answer and
    whether the run returns or raises, no update and no delete is sent to
    Sonarr, no section of Plex is updated and no directory is removed:
    the disk is left as it was, also when [delete_empty_dirs] is set. *)
Theorem dry_run_mutates_nothing (w : world) (self : MediaCleaner) (now : datetime)
    (s : state) :
  truthy (dry_run (config self)) = true ->
  exists evs,
    trace (snd (run w self now s)) = (trace s ++ evs)%list
    /\ disk (snd (run w self now s)) = disk s
    /\ forall ev, ev ∈ evs ->
         match ev with
         | Http (PUT _ _ _) | Http (DELETE _ _) | PlexUpdate _ | Rmdir _ => False
         | _ => True
         end.
Proof.
  intros Hdry. destruct (quiet_run w self now Hdry s) as (evs & Hs & Hevs).
  exists evs. rewrite Hs. split; [reflexivity|]. split; [reflexivity|].
  intros ev Hev. rewrite Forall_forall in Hevs. specialize (Hevs ev Hev).
  destruct ev as [[| |]| | | | |]; simpl in Hevs; try discriminate; exact I.
Qed.

Lemma dry_run_mutates_nothing_witness :
  exists evs,
    trace (snd (run scenario (a_cleaner true) first_of_march a_disk))
    = (trace a_disk ++ evs)%list
    /\ disk (snd (run scenario (a_cleaner true) first_of_march a_disk)) = disk a_disk
    /\ forall ev, ev ∈ evs ->
         match ev with
         | Http (PUT _ _ _) | Http (DELETE _ _) | PlexUpdate _ | Rmdir _ => False
         | _ => True
         end.
Proof.
  apply (dry_run_mutates_nothing scenario (a_cleaner true) first_of_march a_disk).
  reflexivity.
Defined.

Example dry_run_of_scenario :
  run scenario (a_cleaner true) first_of_march a_disk
  = (Ret tt,
     say a_disk
       [LogInfo [Lit "Starting media cleanup process..."];
        LogInfo [Lit "Processing Sonarr content..."];
        Http (series_request a_manager);
        Http (episode_request a_manager (PInt 1));
        LogInfo [Lit "Processing "; Val (PInt 1); Lit " episodes for '";
                 Val (PStr "Show"); Lit "'"];
        LogInfo [Lit "Processed Sonarr episode: "; Val (PStr "Episode");
                 Lit " ("; Lit "Dry run"; Lit ")"];
        LogInfo [Lit "Refreshing Plex libraries..."];
        LogInfo [Lit "Cleanup complete. Processed "; Val (PInt 1);
                 Lit " episodes ("; Lit "Dry run"; Lit ")"]]).
Proof. vm_compute. reflexivity. Qed.

Example actual_run_of_scenario :
  trace (snd (run scenario (a_cleaner false) first_of_march a_disk))
  = [LogInfo [Lit "Starting media cleanup process..."];
     LogInfo [Lit "Processing Sonarr content..."];
     Http (series_request a_manager);
     Http (episode_request a_manager (PInt 1));
     LogInfo [Lit "Processing "; Val (PInt 1); Lit " episodes for '";
              Val (PStr "Show"); Lit "'"];
     Http (PUT [Val (PStr "http://sonarr:8989"); Lit "/api/v3/episode/"; Val (PInt 1)]
               (_get_headers a_manager)
               (match E1 with
                | PDict d => PDict (<["monitored" := PBool false]> d)
                | _ => PNone
                end));
     Http (DELETE [Val (PStr "http://sonarr:8989"); Lit "/api/v3/episodefile/";
                   Val (PInt 10)] (_get_headers a_manager));
     LogInfo [Lit "Processed Sonarr episode: "; Val (PStr "Episode");
              Lit " ("; Lit "Deleted"; Lit ")"];
     LogInfo [Lit "Refreshing Plex libraries..."];
     PlexSections;
     PlexUpdate "TV";
     LogInfo [Lit "Refreshed Plex library: "; Val (PStr "TV")];
     Rmdir "/media/Show/Season 1";
     LogInfo [Lit "Removed empty directory: "; Val (PStr "/media/Show/Season 1")];
     Rmdir "/media/Show";
     LogInfo [Lit "Removed empty directory: "; Val (PStr "/media/Show")];
     LogInfo [Lit "Cleanup complete. Processed "; Val (PInt 1);
              Lit " episodes ("; Lit "Actual run"; Lit ")"]]
  /\ disk (snd (run scenario (a_cleaner false) first_of_march a_disk))
     = {[ "/media" := [File "notes.txt"] ]}.
Proof. split; vm_compute; reflexivity. Qed.

(** ** Pruning (C1) *)

Lemma walk_into_dir parent name listable removable entries :
  walk_into parent (Dir name listable removable entries)
  = if listable then
      match descend (path_join parent name) entries with
      | (entries1, evs1, Some e) => (Dir name listable removable entries1, evs1, Some e)
      | (entries1, evs1, None) =>
          let '(entries2, evs2, err2) := remove_empty (path_join parent name) entries1 in
          (Dir name listable removable entries2, (evs1 ++ evs2)%list, err2)
      end
    else (Dir name listable removable entries, [], None).
Proof.
  simpl. destruct listable; [|reflexivity].
  match goal with
  | |- context [?inner entries] =>
      assert (Hsame : forall l, inner l = descend (path_join parent name) l)
        by (induction l as [|c l IH]; simpl; [reflexivity | rewrite IH; reflexivity]);
      rewrite Hsame
  end.
  destruct (descend (path_join parent name) entries) as [[entries1 evs1] [e|]]; reflexivity.
Qed.

Lemma remove_empty_removes root entries :
  Forall removal (remove_empty root entries).1.2.
Proof.
  induction entries as [|[f|name listable removable sub] rest IH]; simpl.
  - constructor.
  - destruct (remove_empty root rest) as [[rest' evs] err]. exact IH.
  - destruct listable; simpl; [|constructor].
    destruct sub as [|c sub].
    + destruct removable; simpl.
      * destruct (remove_empty root rest) as [[rest' evs] err]. simpl in *.
        repeat constructor. exact IH.
      * repeat constructor.
    + destruct (remove_empty root rest) as [[rest' evs] err]. exact IH.
Qed.

(** When the inner loop stops at a directory, that directory and the
    entries listed after it are left as they were. *)
Lemma remove_empty_stops root entries entries' evs e :
  remove_empty root entries = (entries', evs, Some e) ->
  exists before kept name listable removable sub after,
    entries = (before ++ Dir name listable removable sub :: after)%list
    /\ entries' = (kept ++ Dir name listable removable sub :: after)%list
    /\ e = OSError (path_join root name).
Proof.
  revert entries' evs.
  induction entries as [|[f|name listable removable sub] rest IH]; intros entries' evs;
    simpl.
  - discriminate.
  - destruct (remove_empty root rest) as [[rest' evs'] err] eqn:Hrest.
    intros H; inversion H; subst.
    destruct (IH _ _ eq_refl) as (before & kept & n & l & r & sb & after & -> & -> & ->).
    exists (File f :: before), (File f :: kept), n, l, r, sb, after. done.
  - destruct listable; simpl.
    + destruct sub as [|c sub].
      * destruct removable.
        -- destruct (remove_empty root rest) as [[rest' evs'] err] eqn:Hrest.
           intros H; inversion H; subst.
           destruct (IH _ _ eq_refl)
             as (before & kept & n & l & r & sb & after & -> & -> & ->).
           exists (Dir name true true [] :: before), kept, n, l, r, sb, after. done.
        -- intros H; inversion H; subst.
           exists [], [], name, true, false, [], rest. done.
      * destruct (remove_empty root rest) as [[rest' evs'] err] eqn:Hrest.
        intros H; inversion H; subst.
        destruct (IH _ _ eq_refl)
          as (before & kept & n & l & r & sb & after & -> & -> & ->).
        exists (Dir name true removable (c :: sub) :: before),
               (Dir name true removable (c :: sub) :: kept), n, l, r, sb, after. done.
    + intros H; inversion H; subst.
      exists [], [], name, false, removable, sub, rest. done.
Qed.

Lemma descend_removes top entries :
  Forall (fun c => forall parent, Forall removal (walk_into parent c).1.2) entries ->
  Forall removal (descend top entries).1.2.
Proof.
  induction 1 as [|c rest Hc _ IH]; simpl; [constructor|].
  specialize (Hc top).
  destruct (walk_into top c) as [[c' evs] [e|]]; simpl in *; [exact Hc|].
  destruct (descend top rest) as [[rest' evs'] err]. simpl in *.
  by apply Forall_app.
Qed.

Lemma walk_into_removes n : forall parent, Forall removal (walk_into parent n).1.2.
Proof.
  induction n as [name|name listable removable entries IH] using node_tree_ind;
    intros parent; [constructor|].
  rewrite walk_into_dir. destruct listable; [|constructor].
  pose proof (descend_removes (path_join parent name) entries IH) as Hd.
  destruct (descend (path_join parent name) entries) as [[entries1 evs1] [e|]];
    simpl in *; [exact Hd|].
  pose proof (remove_empty_removes (path_join parent name) entries1) as Hr.
  destruct (remove_empty (path_join parent name) entries1) as [[entries2 evs2] err2].
  simpl in *. by apply Forall_app.
Qed.

Lemma walk_removes top entries : Forall removal (walk top entries).1.2.
Proof.
  unfold walk.
  pose proof (descend_removes top entries) as Hd.
  assert (Hall : Forall (fun c => forall parent, Forall removal (walk_into parent c).1.2)
                   entries)
    by (apply Forall_forall; intros c _; apply walk_into_removes).
  specialize (Hd Hall).
  destruct (descend top entries) as [[entries1 evs1] [e|]]; simpl in *; [exact Hd|].
  pose proof (remove_empty_removes top entries1) as Hr.
  destruct (remove_empty top entries1) as [[entries2 evs2] err2].
  simpl in *. by apply Forall_app.
Qed.














(** * Further properties *)

(** ** [process_episode] without [dry_run] *)

(** The four ways in which [process_episode] can go for a dict. *)
Lemma process_episode_paths (w : world) (self : SonarrManager)
    (episode : gmap string pyval) (dry : pyval) (s : state) :
  truthy dry = false ->
  process_episode w self (PDict episode) dry s
  = match episode !! "id" with
    | None => (Ret false, say s [failed_line episode (KeyError "id")])
    | Some id =>
        let put := Http (put_request self episode id) in
        match http w (trace s ++ [put]) with
        | Failed detail =>
            (Ret false, say s [put; failed_line episode (ConnectionError detail)])
        | Response _ _ =>
            match episode !! "episodeFileId" with
            | None =>
                (Ret false, say s [put; failed_line episode (KeyError "episodeFileId")])
            | Some file_id =>
                let del := Http (delete_request self file_id) in
                match http w (trace s ++ [put; del]) with
                | Failed detail =>
                    (Ret false,
                     say s [put; del; failed_line episode (ConnectionError detail)])
                | Response _ _ =>
                    (Ret true, say s [put; del; processed_line episode "Deleted"])
                end
            end
        end
    end.
Proof.
  intros Hdry. unfold process_episode, requests_call, failed_line, processed_line,
    put_request, delete_request, say.
  run_step. rewrite Hdry. simpl.
  rewrite !lookup_insert_ne by done.
  destruct (episode !! "id") as [id|] eqn:Hid; simpl; [|reflexivity].
  rewrite <- ?app_assoc. simpl.
  destruct (http w (trace s ++ [_])) as [detail|st1 b1] eqn:Hput; simpl.
  - rewrite <- ?app_assoc. reflexivity.
  - destruct (episode !! "episodeFileId") as [file_id|] eqn:Hfile; simpl.
    + rewrite <- ?app_assoc. simpl.
      destruct (http w (trace s ++ [_; _])) as [detail|st2 b2] eqn:Hdel; simpl.
      * rewrite ?lookup_insert_ne by done. rewrite <- ?app_assoc. reflexivity.
      * rewrite ?lookup_insert_ne by done. rewrite <- ?app_assoc. reflexivity.
    + rewrite <- ?app_assoc. reflexivity.
Qed.

Lemma process_episode_dry (w : world) (self : SonarrManager)
    (episode : gmap string pyval) (dry : pyval) (s : state) :
  truthy dry = true ->
  process_episode w self (PDict episode) dry s
  = (Ret true, say s [processed_line episode "Dry run"]).
Proof.
  intros Hdry. unfold process_episode, processed_line. run_step. rewrite Hdry. reflexivity.
Qed.

(** X1. Whatever Sonarr does and whatever the record holds,
    [process_episode] returns a boolean for a dict: it never raises. *)
Theorem process_episode_never_raises (w : world) (self : SonarrManager)
    (episode : gmap string pyval) (dry : pyval) (s : state) :
  exists result : bool, fst (process_episode w self (PDict episode) dry s) = Ret result.
Proof.
  destruct (truthy dry) eqn:Hdry.
  - rewrite (process_episode_dry w self episode dry s Hdry). by exists true.
  - rewrite (process_episode_paths w self episode dry s Hdry). cbv zeta.
    repeat match goal with
           | |- context [match ?x with _ => _ end] => destruct x
           end; simpl; eauto.
Qed.

(** X2. Without [dry_run], [process_episode] returns [True] exactly when
    the record has an [id] and an [episodeFileId] and each of the two
    requests comes back with a response, of whatever status. *)
Theorem process_episode_true_iff (w : world) (self : SonarrManager)
    (episode : gmap string pyval) (dry : pyval) (s : state) :
  truthy dry = false ->
  fst (process_episode w self (PDict episode) dry s) = Ret true
  <-> exists id file_id status1 body1 status2 body2,
        episode !! "id" = Some id
        /\ episode !! "episodeFileId" = Some file_id
        /\ http w (trace s ++ [Http (put_request self episode id)])
           = Response status1 body1
        /\ http w (trace s ++ [Http (put_request self episode id);
                               Http (delete_request self file_id)])
           = Response status2 body2.
Proof.
  intros Hdry. rewrite (process_episode_paths w self episode dry s Hdry). split.
  - destruct (episode !! "id") as [id|]; [|discriminate]. cbv zeta.
    destruct (http w (trace s ++ [_])) as [d|st1 b1] eqn:Hput; [discriminate|].
    destruct (episode !! "episodeFileId") as [file_id|]; [|discriminate].
    destruct (http w (trace s ++ [_; _])) as [d|st2 b2] eqn:Hdel; [discriminate|].
    intros _. exists id, file_id, st1, b1, st2, b2. done.
  - intros (id & file_id & st1 & b1 & st2 & b2 & -> & -> & Hput & Hdel).
    cbv zeta. rewrite Hput, Hdel. reflexivity.
Qed.

Lemma process_episode_true_iff_witness :
  fst (process_episode sonarr_down a_manager (PDict an_episode) (PBool false) fresh)
  = Ret true
  <-> exists id file_id status1 body1 status2 body2,
        an_episode !! "id" = Some id
        /\ an_episode !! "episodeFileId" = Some file_id
        /\ http sonarr_down (trace fresh ++ [Http (put_request a_manager an_episode id)])
           = Response status1 body1
        /\ http sonarr_down (trace fresh ++ [Http (put_request a_manager an_episode id);
                                             Http (delete_request a_manager file_id)])
           = Response status2 body2.
Proof.
  apply (process_episode_true_iff sonarr_down a_manager an_episode (PBool false) fresh).
  reflexivity.
Defined.

(** X3. When the update of the episode fails in the transport, the
    request to delete the file is not issued: the failure is logged with
    the identifier of the episode and [False] is returned. *)
Theorem update_failure_skips_delete (w : world) (self : SonarrManager)
    (episode : gmap string pyval) (dry id : pyval) (detail : string) (s : state) :
  truthy dry = false ->
  episode !! "id" = Some id ->
  http w (trace s ++ [Http (put_request self episode id)]) = Failed detail ->
  process_episode w self (PDict episode) dry s
  = (Ret false,
     say s [Http (put_request self episode id);
            LogError [Lit "Failed to process Sonarr episode "; Val id; Lit ": ";
                      Exc (ConnectionError detail)]]).
Proof.
  intros Hdry Hid Hput. rewrite (process_episode_paths w self episode dry s Hdry).
  unfold failed_line. rewrite Hid. cbv zeta. rewrite Hput. reflexivity.
Qed.

Lemma update_failure_skips_delete_witness :
  process_episode unreachable a_manager (PDict an_episode) (PBool false) fresh
  = (Ret false,
     say fresh [Http (put_request a_manager an_episode (PInt 7));
                LogError [Lit "Failed to process Sonarr episode "; Val (PInt 7); Lit ": ";
                          Exc (ConnectionError "connection refused")]]).
Proof.
  apply (update_failure_skips_delete unreachable a_manager an_episode (PBool false)
           (PInt 7) "connection refused" fresh); reflexivity.
Defined.

(** X4. When the update is answered and the request to delete the file
    fails in the transport, [False] is returned and the failure logged.
    The update, with [monitored] set to [False], has been sent, and no
    request follows that would undo it. *)
Theorem delete_failure_leaves_episode_unmonitored (w : world) (self : SonarrManager)
    (episode : gmap string pyval) (dry id file_id : pyval) (status : Z) (body : pyval)
    (detail : string) (s : state) :
  truthy dry = false ->
  episode !! "id" = Some id ->
  episode !! "episodeFileId" = Some file_id ->
  http w (trace s ++ [Http (put_request self episode id)]) = Response status body ->
  http w (trace s ++ [Http (put_request self episode id);
                      Http (delete_request self file_id)]) = Failed detail ->
  process_episode w self (PDict episode) dry s
  = (Ret false,
     say s [Http (PUT [Val (host self); Lit "/api/v3/episode/"; Val id]
                      (_get_headers self)
                      (PDict (<["monitored" := PBool false]> episode)));
            Http (delete_request self file_id);
            LogError [Lit "Failed to process Sonarr episode "; Val id; Lit ": ";
                      Exc (ConnectionError detail)]]).
Proof.
  intros Hdry Hid Hfile Hput Hdel.
  rewrite (process_episode_paths w self episode dry s Hdry).
  unfold failed_line. rewrite Hid, Hfile. cbv zeta. rewrite Hput, Hdel. reflexivity.
Qed.

Lemma delete_failure_leaves_episode_unmonitored_witness :
  process_episode delete_times_out a_manager (PDict an_episode) (PBool false) fresh
  = (Ret false,
     say fresh
       [Http (PUT [Val (host a_manager); Lit "/api/v3/episode/"; Val (PInt 7)]
                  (_get_headers a_manager)
                  (PDict (<["monitored" := PBool false]> an_episode)));
        Http (delete_request a_manager (PInt 70));
        LogError [Lit "Failed to process Sonarr episode "; Val (PInt 7); Lit ": ";
                  Exc (ConnectionError "timed out")]]).
Proof.
  apply (delete_failure_leaves_episode_unmonitored delete_times_out a_manager an_episode
           (PBool false) (PInt 7) (PInt 70) 200 PNone "timed out" fresh); reflexivity.
Defined.

(** X5. A record without [id] is not sent to Sonarr at all: the
    [KeyError] is caught, logged with [None] for the identifier, and
    [False] is returned. *)
Theorem episode_without_id_is_not_sent (w : world) (self : SonarrManager)
    (episode : gmap string pyval) (dry : pyval) (s : state) :
  truthy dry = false ->
  episode !! "id" = None ->
  process_episode w self (PDict episode) dry s
  = (Ret false,
     say s [LogError [Lit "Failed to process Sonarr episode "; Val PNone; Lit ": ";
                      Exc (KeyError "id")]]).
Proof.
  intros Hdry Hid. rewrite (process_episode_paths w self episode dry s Hdry).
  unfold failed_line. rewrite Hid. reflexivity.
Qed.

Lemma episode_without_id_is_not_sent_witness :
  process_episode sonarr_down a_manager (PDict nameless) (PBool false) fresh
  = (Ret false,
     say fresh [LogError [Lit "Failed to process Sonarr episode "; Val PNone; Lit ": ";
                          Exc (KeyError "id")]]).
Proof.
  apply (episode_without_id_is_not_sent sonarr_down a_manager nameless (PBool false) fresh);
    reflexivity.
Defined.

(** ** The order on timestamps *)

Lemma lex_lt_irrefl (a : list Z) : lex_lt a a = false.
Proof.
  induction a as [|x a IH]; simpl; [reflexivity|].
  rewrite Z.ltb_irrefl, Z.eqb_refl, IH. reflexivity.
Qed.

Lemma lex_lt_trans (a b c : list Z) :
  lex_lt a b = true -> lex_lt b c = true -> lex_lt a c = true.
Proof.
  revert b c. induction a as [|x a IH]; intros [|y b] [|z c]; simpl; try discriminate.
  intros Hab Hbc.
  apply orb_true_iff in Hab as [Hab|Hab]; apply orb_true_iff in Hbc as [Hbc|Hbc];
    apply orb_true_iff.
  - left. apply Z.ltb_lt in Hab, Hbc. apply Z.ltb_lt. lia.
  - apply andb_true_iff in Hbc as [Hyz _]. apply Z.eqb_eq in Hyz. subst. by left.
  - apply andb_true_iff in Hab as [Hxy _]. apply Z.eqb_eq in Hxy. subst. by left.
  - apply andb_true_iff in Hab as [Hxy Hab]. apply andb_true_iff in Hbc as [Hyz Hbc].
    apply Z.eqb_eq in Hxy, Hyz. subst. right.
    rewrite Z.eqb_refl. simpl. by apply (IH b c).
Qed.

Lemma datetime_lt_irrefl (t : datetime) : datetime_lt t t = false.
Proof. apply lex_lt_irrefl. Qed.

Lemma datetime_lt_le_trans (a b c : datetime) :
  datetime_lt a b = true -> datetime_le b c -> datetime_lt a c = true.
Proof.
  intros Hab [Hbc| ->]; [|exact Hab].
  unfold datetime_lt in *. by apply (lex_lt_trans _ (fields b)).
Qed.

(** ** What [get_episodes_to_delete] returns *)

(** A returned list is empty, or is what the comprehension makes of a
    delivered body. *)
Lemma get_episodes_returned w self sid cutoff s out s' :
  get_episodes_to_delete w self sid cutoff s = (Ret out, s') ->
  out = []
  \/ exists status body l,
       http w (trace s ++ [Http (episode_request self sid)]) = Response status body
       /\ iterate body = Ret l
       /\ comprehension (to_delete cutoff) l = Ret out.
Proof.
  intros Hget.
  destruct (http w (trace s ++ [Http (episode_request self sid)]))
    as [detail|status body] eqn:Hw.
  - left.
    rewrite (get_episodes_failed w self sid cutoff s (ConnectionError detail)) in Hget
      by (left; eauto).
    by inversion Hget.
  - destruct (decide (accepted status)) as [Hst|Hst].
    + right. exists status, body.
      rewrite (get_episodes_delivered w self sid cutoff s status body Hw Hst) in Hget.
      destruct (iterate body) as [l|e]; simpl in Hget; [|by inversion Hget].
      exists l. split; [done|]. split; [done|]. by inversion Hget.
    + left.
      rewrite (get_episodes_failed w self sid cutoff s (HTTPError status)) in Hget
        by (right; eauto).
      by inversion Hget.
Qed.

(** X6. Whatever Sonarr answers, every element of a list returned by
    [get_episodes_to_delete] is a dict, so that [process_episode], which
    is given these elements, does not raise on them. *)
Theorem eligible_episodes_are_dicts (w : world) (self : SonarrManager)
    (series_id : pyval) (cutoff : datetime) (s s' : state) (eligible : list pyval) :
  get_episodes_to_delete w self series_id cutoff s = (Ret eligible, s') ->
  Forall is_dict eligible.
Proof.
  intros Hget. apply Forall_forall. intros episode Hin.
  destruct (get_episodes_returned _ _ _ _ _ _ _ Hget) as [->|(st & body & l & _ & _ & Hl)].
  - inversion Hin.
  - apply (comprehension_elem _ _ _ Hl) in Hin as [_ Hep].
    apply to_delete_true in Hep as [_ (t & Ht & _)].
    by apply air_timestamp_dict in Ht.
Qed.

Lemma eligible_episodes_are_dicts_witness : Forall is_dict [E1].
Proof.
  apply (eligible_episodes_are_dicts three_episodes a_manager (PInt 1) the_cutoff fresh
           (say fresh [Http (episode_request a_manager (PInt 1))]) [E1]).
  vm_compute. reflexivity.
Defined.

(** X7. The comparison with the cutoff is strict: an episode that aired
    at the very instant of the cutoff is never in the returned list. *)
Theorem episode_aired_at_cutoff_is_kept (w : world) (self : SonarrManager)
    (series_id : pyval) (cutoff : datetime) (s s' : state) (eligible : list pyval)
    (episode : pyval) :
  get_episodes_to_delete w self series_id cutoff s = (Ret eligible, s') ->
  air_timestamp episode = Ret cutoff ->
  episode ∉ eligible.
Proof.
  intros Hget Hair Hin.
  destruct (get_episodes_returned _ _ _ _ _ _ _ Hget) as [->|(st & body & l & _ & _ & Hl)].
  - inversion Hin.
  - apply (comprehension_elem _ _ _ Hl) in Hin as [_ Hep].
    apply to_delete_true in Hep as [_ (t & Ht & Hlt)].
    rewrite Hair in Ht. inversion Ht; subst.
    rewrite datetime_lt_irrefl in Hlt. discriminate.
Qed.

Lemma episode_aired_at_cutoff_is_kept_witness : E1 ∉ [E0].
Proof.
  apply (episode_aired_at_cutoff_is_kept four_episodes a_manager (PInt 1) at_E1 fresh
           (say fresh [Http (episode_request a_manager (PInt 1))]) [E0] E1).
  - vm_compute. reflexivity.
  - vm_compute. reflexivity.
Defined.

(** X8. A later cutoff keeps what an earlier one selects: for the same
    answer of Sonarr, every episode returned for [cutoff1] is returned for
    any [cutoff2] that is not before [cutoff1]. *)
Theorem eligible_grows_with_cutoff (w : world) (self : SonarrManager)
    (series_id : pyval) (cutoff1 cutoff2 : datetime) (s s1 s2 : state)
    (eligible1 eligible2 : list pyval) :
  datetime_le cutoff1 cutoff2 ->
  get_episodes_to_delete w self series_id cutoff1 s = (Ret eligible1, s1) ->
  get_episodes_to_delete w self series_id cutoff2 s = (Ret eligible2, s2) ->
  eligible1 ⊆ eligible2.
Proof.
  intros Hle Hget1 Hget2 episode Hin.
  destruct (get_episodes_returned _ _ _ _ _ _ _ Hget1)
    as [->|(st1 & body1 & l1 & Hw1 & Hi1 & Hl1)]; [inversion Hin|].
  pose proof Hin as Hin1.
  apply (comprehension_elem _ _ _ Hl1) in Hin as [Hin Hep].
  apply to_delete_true in Hep as [Hfile (t & Ht & Hlt)].
  assert (Hep2 : to_delete cutoff2 episode = Ret true).
  { apply to_delete_true. split; [done|]. exists t. split; [done|].
    by apply (datetime_lt_le_trans t cutoff1 cutoff2). }
  destruct (get_episodes_returned _ _ _ _ _ _ _ Hget2)
    as [->|(st2 & body2 & l2 & Hw2 & Hi2 & Hl2)].
  - (* the fetch failed for [cutoff2]: then it failed for [cutoff1] *)
    exfalso.
    destruct (decide (accepted st1)) as [Hst|Hst].
    + rewrite (get_episodes_delivered w self series_id cutoff2 s st1 body1 Hw1 Hst)
        in Hget2.
      rewrite Hi1 in Hget2. simpl in Hget2.
      assert (Hel : comprehension (to_delete cutoff2) l1 = Ret []) by (by inversion Hget2).
      assert (Hno : episode ∈ ([] : list pyval))
        by (apply (comprehension_elem _ _ _ Hel); done).
      inversion Hno.
    + rewrite (get_episodes_failed w self series_id cutoff1 s (HTTPError st1)) in Hget1
        by (right; eauto).
      inversion Hget1; subst. inversion Hin1.
  - rewrite Hw1 in Hw2. inversion Hw2; subst. rewrite Hi1 in Hi2. inversion Hi2; subst.
    apply (comprehension_elem _ _ _ Hl2). done.
Qed.

Lemma eligible_grows_with_cutoff_witness : [E1] ⊆ [E1; E2].
Proof.
  apply (eligible_grows_with_cutoff three_episodes a_manager (PInt 1) the_cutoff
           first_of_march fresh
           (say fresh [Http (episode_request a_manager (PInt 1))])
           (say fresh [Http (episode_request a_manager (PInt 1))]) [E1] [E1; E2]).
  - left. vm_compute. reflexivity.
  - vm_compute. reflexivity.
  - vm_compute. reflexivity.
Defined.

(** ** What [get_daily_series] returns *)

Lemma comprehension_is_daily series out :
  comprehension is_daily series = Ret out -> out = List.filter tagged_daily series.
Proof.
  revert out. induction series as [|x series IH]; intros out H; simpl in H.
  - by inversion H.
  - destruct (subscript x "seriesType") as [t|e] eqn:Ht.
    + assert (Hd : is_daily x = Ret (eq_str t "daily"))
        by (unfold is_daily; rewrite Ht; reflexivity).
      assert (Hg : tagged_daily x = eq_str t "daily")
        by (unfold tagged_daily; rewrite Ht; reflexivity).
      rewrite Hd in H. simpl in H.
      destruct (comprehension is_daily series) as [tail|e]; simpl in H; [|discriminate].
      inversion H; subst. simpl. rewrite Hg, (IH tail eq_refl). reflexivity.
    + assert (Hd : is_daily x = Raise e) by (unfold is_daily; rewrite Ht; reflexivity).
      rewrite Hd in H. discriminate.
Qed.

(** X9. When the series are delivered and each record carries a format
    tag, [get_daily_series] returns all the records whose tag is the
    string [daily] and no other, in the order in which they came. *)
Theorem daily_series_are_exactly_the_tagged (w : world) (self : SonarrManager)
    (s : state) (status : Z) (series : list pyval) :
  http w (trace s ++ [Http (series_request self)]) = Response status (PList series) ->
  accepted status ->
  Forall (fun x => exists t, subscript x "seriesType" = Ret t) series ->
  get_daily_series w self s
  = (Ret (List.filter tagged_daily series), say s [Http (series_request self)]).
Proof.
  intros Hw Hst Htags.
  rewrite (get_daily_series_delivered w self s status _ Hw Hst). simpl.
  destruct (comprehension_returns is_daily series) as [out Hout].
  { eapply Forall_impl; [exact Htags|]. intros x [t Ht]. eapply is_daily_returns, Ht. }
  rewrite Hout. by rewrite (comprehension_is_daily series out Hout).
Qed.

Lemma daily_series_are_exactly_the_tagged_witness :
  get_daily_series two_series a_manager fresh
  = (Ret (List.filter tagged_daily [standard_show; daily_show]),
     say fresh [Http (series_request a_manager)]).
Proof.
  apply (daily_series_are_exactly_the_tagged two_series a_manager fresh 200
           [standard_show; daily_show]).
  - reflexivity.
  - reflexivity.
  - repeat constructor; eexists; vm_compute; reflexivity.
Defined.

Lemma is_daily_untagged (d : gmap string pyval) :
  d !! "seriesType" = None -> is_daily (PDict d) = Raise (KeyError "seriesType").
Proof. intros H. unfold is_daily. simpl. rewrite H. reflexivity. Qed.

(** X10. Only a [RequestException] is caught in [get_daily_series].
    When the series are delivered and one of the records has no
    [seriesType], the records before it having one, [get_daily_series]
    raises [KeyError], and so does [run], before any episode is asked
    for: nothing is refreshed or pruned and no summary is logged. *)
Theorem untagged_series_aborts_run (w : world) (self : MediaCleaner)
    (manager : SonarrManager) (now cutoff : datetime) (s : state) (status : Z)
    (good rest : list pyval) (bad : gmap string pyval) :
  sonarr_enabled (config self) = true ->
  sonarr self = Some manager ->
  minus_days now (days_threshold (config self)) = Ret cutoff ->
  http w (trace s ++ started manager) = Response status (PList (good ++ PDict bad :: rest)) ->
  accepted status ->
  Forall (fun x => exists t, subscript x "seriesType" = Ret t) good ->
  bad !! "seriesType" = None ->
  run w self now s = (Raise (KeyError "seriesType"), say s (started manager)).
Proof.
  intros Hen Hmgr Hcut Hw Hst Hgood Hbad.
  set (s0 := say s [LogInfo [Lit "Starting media cleanup process..."];
                    LogInfo [Lit "Processing Sonarr content..."]]).
  assert (Hseries : get_daily_series w manager s0
                    = (Raise (KeyError "seriesType"), say s (started manager))).
  { rewrite (get_daily_series_delivered w manager s0 status
               (PList (good ++ PDict bad :: rest))).
    - simpl.
      rewrite (comprehension_raises is_daily good (PDict bad) rest (KeyError "seriesType")).
      + unfold s0. rewrite say_say. reflexivity.
      + eapply Forall_impl; [exact Hgood|]. intros x [t Ht]. eapply is_daily_returns, Ht.
      + by apply is_daily_untagged.
    - unfold s0. simpl. rewrite <- app_assoc. exact Hw.
    - exact Hst. }
  unfold run. rewrite bind_run. unfold logger_info at 1. rewrite emit_run.
  rewrite bind_run. unfold lift at 1. rewrite Hcut.
  rewrite bind_run, Hen. rewrite bind_run. unfold logger_info at 1. rewrite emit_run.
  rewrite say_say. simpl app. fold s0.
  rewrite Hmgr. unfold attribute. rewrite bind_run, Hseries. reflexivity.
Qed.

Lemma untagged_series_aborts_run_witness :
  run with_untagged (a_cleaner false) first_of_march fresh
  = (Raise (KeyError "seriesType"), say fresh (started a_manager)).
Proof.
  apply (untagged_series_aborts_run with_untagged (a_cleaner false) a_manager
           first_of_march the_cutoff fresh 200 [daily_show] [standard_show]
           (<["id" := PInt 3]> (<["title" := PStr "Pilot"]> ∅))).
  - reflexivity.
  - reflexivity.
  - vm_compute. reflexivity.
  - reflexivity.
  - reflexivity.
  - repeat constructor. eexists. vm_compute. reflexivity.
  - vm_compute. reflexivity.
Defined.

(** ** The run as a whole *)

Lemma run_finish w self now :
  run w self now
  = (_ ← logger_info [Lit "Starting media cleanup process..."];
     threshold_date ← lift (minus_days now (days_threshold (config self)));
     total_processed ←
       (if sonarr_enabled (config self) then
          _ ← logger_info [Lit "Processing Sonarr content..."];
          attribute (sonarr self) (fun manager =>
            series ← get_daily_series w manager;
            fold_each series 0 (process_serie w self manager threshold_date))
        else mret 0);
     finish w self total_processed).
Proof. reflexivity. Qed.

(** X11. When the fetch of the series fails, the error is logged, no
    episode is asked for and nothing is processed; the run goes on with
    the refresh of Plex, the pruning and the summary, with a count of 0. *)
Theorem series_fetch_failure_skips_to_finish (w : world) (self : MediaCleaner)
    (manager : SonarrManager) (now cutoff : datetime) (s : state) (e : exn) :
  sonarr_enabled (config self) = true ->
  sonarr self = Some manager ->
  minus_days now (days_threshold (config self)) = Ret cutoff ->
  fetch_fails w (say s [LogInfo [Lit "Starting media cleanup process..."];
                        LogInfo [Lit "Processing Sonarr content..."]])
    (series_request manager) e ->
  run w self now s
  = finish w self 0
      (say s (started manager
              ++ [LogError [Lit "Failed to fetch series from Sonarr: "; Exc e]])).
Proof.
  intros Hen Hmgr Hcut Hfail.
  set (s0 := say s [LogInfo [Lit "Starting media cleanup process..."];
                    LogInfo [Lit "Processing Sonarr content..."]]) in *.
  pose proof (get_daily_series_failed w manager s0 e Hfail) as Hseries.
  rewrite run_finish. rewrite bind_run. unfold logger_info at 1. rewrite emit_run.
  rewrite bind_run. unfold lift at 1. rewrite Hcut.
  rewrite bind_run, Hen. rewrite bind_run. unfold logger_info at 1. rewrite emit_run.
  rewrite say_say. simpl app. fold s0.
  rewrite Hmgr. unfold attribute. rewrite bind_run, Hseries.
  unfold s0. rewrite say_say. reflexivity.
Qed.

Lemma series_fetch_failure_skips_to_finish_witness :
  run unreachable (a_cleaner false) first_of_march fresh
  = finish unreachable (a_cleaner false) 0
      (say fresh (started a_manager
                  ++ [LogError [Lit "Failed to fetch series from Sonarr: ";
                                Exc (ConnectionError "connection refused")]])).
Proof.
  apply (series_fetch_failure_skips_to_finish unreachable (a_cleaner false) a_manager
           first_of_march the_cutoff fresh (ConnectionError "connection refused")).
  - reflexivity.
  - reflexivity.
  - vm_compute. reflexivity.
  - left. exists "connection refused". split; reflexivity.
Defined.

(** X12. A threshold that is no number ([None], a string, a list or a
    dict) is found out when the run starts: [timedelta] raises
    [TypeError] right after the first line is logged, and nothing else is
    done. *)
Theorem threshold_must_be_a_number (w : world) (self : MediaCleaner) (now : datetime)
    (s : state) :
  no_number (days_threshold (config self)) ->
  run w self now s
  = (Raise TypeError, say s [LogInfo [Lit "Starting media cleanup process..."]]).
Proof.
  intros Hno. rewrite run_finish.
  rewrite bind_run. unfold logger_info at 1. rewrite emit_run.
  rewrite bind_run. unfold lift at 1, minus_days.
  destruct (days_threshold (config self)) as [| b | n | | |];
    try reflexivity; destruct Hno.
Qed.

Lemma threshold_must_be_a_number_witness :
  run scenario quoted_threshold first_of_march fresh
  = (Raise TypeError, say fresh [LogInfo [Lit "Starting media cleanup process..."]]).
Proof.
  apply (threshold_must_be_a_number scenario quoted_threshold first_of_march fresh).
  exact I.
Defined.

(** ** [refresh_libraries] *)

(** The loop over the sections, up to and including a section whose
    update raises. *)
Lemma refresh_loop_fine sections s :
  Forall updates_fine sections ->
  for_each sections (fun section =>
    if String.eqb (section_type section) "show" then
      _ ← emit (PlexUpdate (section_title section));
      _ ← match update_error section with
          | Some e => raise e
          | None => mret tt
          end;
      logger_info [Lit "Refreshed Plex library: "; Val (PStr (section_title section))]
    else mret tt) s
  = (Ret tt, say s (flat_map refreshed sections)).
Proof.
  intros Hfine. revert s.
  induction Hfine as [|sec sections Hsec _ IH]; intros s; simpl.
  - by rewrite say_nil.
  - rewrite bind_run. unfold refreshed at 1.
    destruct (String.eqb (section_type sec) "show") eqn:Hshow.
    + destruct Hsec as [Hsec|Hsec]; [by apply String.eqb_eq in Hshow|].
      rewrite Hsec. run_step. rewrite IH. unfold say. simpl.
      rewrite <- !app_assoc. reflexivity.
    + run_step. rewrite IH. reflexivity.
Qed.

Lemma refresh_loop_broken before bad after e s :
  Forall updates_fine before ->
  section_type bad = "show" ->
  update_error bad = Some e ->
  for_each (before ++ bad :: after) (fun section =>
    if String.eqb (section_type section) "show" then
      _ ← emit (PlexUpdate (section_title section));
      _ ← match update_error section with
          | Some e => raise e
          | None => mret tt
          end;
      logger_info [Lit "Refreshed Plex library: "; Val (PStr (section_title section))]
    else mret tt) s
  = (Raise e, say s (flat_map refreshed before ++ [PlexUpdate (section_title bad)])).
Proof.
  intros Hfine Hshow Herr. revert s.
  induction Hfine as [|sec sections Hsec _ IH]; intros s; simpl.
  - rewrite bind_run, Hshow. simpl. rewrite Herr. run_step. reflexivity.
  - rewrite bind_run. unfold refreshed at 1.
    destruct (String.eqb (section_type sec) "show") eqn:Hsh.
    + destruct Hsec as [Hsec|Hsec]; [by apply String.eqb_eq in Hsh|].
      rewrite Hsec. run_step. rewrite IH. unfold say. simpl.
      rewrite <- !app_assoc. reflexivity.
    + run_step. rewrite IH. reflexivity.
Qed.

(** X13. Without [dry_run], when the sections are listed and no update
    raises, [refresh_libraries] updates the sections of type [show], each
    once and in the order of the listing, logs each update, and touches no
    section of another type. *)
Theorem refresh_updates_the_show_sections (w : world) (self : PlexManager)
    (dry : pyval) (sections : list section) (s : state) :
  truthy dry = false ->
  plex_library w = Ret sections ->
  Forall updates_fine sections ->
  refresh_libraries w self dry s
  = (Ret tt, say s (PlexSections :: flat_map refreshed sections)).
Proof.
  intros Hdry Hlib Hfine. unfold refresh_libraries, try_except. rewrite Hdry.
  change (negb false) with true. cbv iota. rewrite bind_run, emit_run, bind_run. unfold lift. rewrite Hlib.
  rewrite (refresh_loop_fine sections _ Hfine). rewrite say_say. reflexivity.
Qed.

Lemma refresh_updates_the_show_sections_witness :
  refresh_libraries scenario a_plex (PBool false) fresh
  = (Ret tt,
     say fresh (PlexSections
                :: flat_map refreshed [library "TV" "show" None;
                                       library "Films" "movie" None])).
Proof.
  apply (refresh_updates_the_show_sections scenario a_plex (PBool false)
           [library "TV" "show" None; library "Films" "movie" None] fresh).
  - reflexivity.
  - reflexivity.
  - repeat constructor; right; reflexivity.
Defined.

(** X14. The one handler of [refresh_libraries] is around the loop over
    the sections.  When the update of a section raises, the error is
    logged and the method returns, and the sections listed after it are
    not updated. *)
Theorem refresh_stops_at_failed_update (w : world) (self : PlexManager) (dry : pyval)
    (before after : list section) (bad : section) (e : exn) (s : state) :
  truthy dry = false ->
  plex_library w = Ret (before ++ bad :: after)%list ->
  Forall updates_fine before ->
  section_type bad = "show" ->
  update_error bad = Some e ->
  refresh_libraries w self dry s
  = (Ret tt,
     say s (PlexSections :: flat_map refreshed before
            ++ [PlexUpdate (section_title bad);
                LogError [Lit "Failed to refresh Plex libraries: "; Exc e]])).
Proof.
  intros Hdry Hlib Hfine Hshow Herr.
  unfold refresh_libraries, try_except. rewrite Hdry.
  change (negb false) with true. cbv iota. rewrite bind_run, emit_run, bind_run. unfold lift. rewrite Hlib.
  rewrite (refresh_loop_broken before bad after e _ Hfine Hshow Herr).
  simpl. unfold logger_error. rewrite emit_run, !say_say.
  simpl. rewrite <- app_assoc. reflexivity.
Qed.

Lemma refresh_stops_at_failed_update_witness :
  refresh_libraries plex_with_broken_library a_plex (PBool false) fresh
  = (Ret tt,
     say fresh (PlexSections
                :: flat_map refreshed [library "TV" "show" None;
                                       library "Films" "movie" None]
                ++ [PlexUpdate "Anime";
                    LogError [Lit "Failed to refresh Plex libraries: ";
                              Exc (PlexError "unauthorized")]])).
Proof.
  apply (refresh_stops_at_failed_update plex_with_broken_library a_plex (PBool false)
           [library "TV" "show" None; library "Films" "movie" None]
           [library "Kids" "show" None]
           (library "Anime" "show" (Some (PlexError "unauthorized")))
           (PlexError "unauthorized") fresh).
  - reflexivity.
  - reflexivity.
  - repeat constructor; right; reflexivity.
  - reflexivity.
  - reflexivity.
Defined.

(** ** What a statement adds to the trace *)

Lemma emits_weaken {A} (P Q : event -> Prop) (m : M A) :
  (forall ev, P ev -> Q ev) -> emits P m -> emits Q m.
Proof.
  intros HPQ Hm s. destruct (Hm s) as (evs & Hs & Hevs).
  exists evs. split; [done|]. eapply Forall_impl; eauto.
Qed.

Lemma emits_lift {A} P (r : res A) : emits P (lift r).
Proof. intros s. exists []. simpl. by rewrite app_nil_r. Qed.

Lemma emits_ret {A} P (a : A) : emits P (mret a : M A).
Proof. intros s. exists []. simpl. by rewrite app_nil_r. Qed.

Lemma emits_emit (P : event -> Prop) ev : P ev -> emits P (emit ev).
Proof. intros Hev s. exists [ev]. split; [reflexivity | by constructor]. Qed.

Lemma emits_bind {A B} P (m : M A) (f : A -> M B) :
  emits P m -> (forall a, emits P (f a)) -> emits P (m ≫= f).
Proof.
  intros Hm Hf s. rewrite bind_run.
  destruct (Hm s) as (evs & Hs & Hevs).
  destruct (m s) as [[a|e] s1]; simpl in Hs.
  - destruct (Hf a s1) as (evs' & Hs' & Hevs').
    exists (evs ++ evs')%list. rewrite Hs', Hs, app_assoc. split; [done|].
    by apply Forall_app.
  - exists evs. done.
Qed.

Lemma emits_try {A} P (body : M A) (caught : exn -> bool) (handler : exn -> M A) :
  emits P body -> (forall e, emits P (handler e)) -> emits P (try_except body caught handler).
Proof.
  intros Hb Hh s. unfold try_except.
  destruct (Hb s) as (evs & Hs & Hevs).
  destruct (body s) as [[a|e] s1]; simpl in Hs.
  - exists evs. done.
  - destruct (caught e); [|by exists evs].
    destruct (Hh e s1) as (evs' & Hs' & Hevs').
    exists (evs ++ evs')%list. rewrite Hs', Hs, app_assoc. split; [done|].
    by apply Forall_app.
Qed.

Lemma emits_for_each {A} P (l : list A) (body : A -> M unit) :
  (forall x, emits P (body x)) -> emits P (for_each l body).
Proof.
  intros Hb. induction l as [|x l IH]; simpl.
  - apply emits_ret.
  - apply emits_bind; [apply Hb | intros _; exact IH].
Qed.

Lemma emits_fold_each {A B} P (l : list A) (body : B -> A -> M B) :
  (forall acc x, emits P (body acc x)) -> forall acc, emits P (fold_each l acc body).
Proof.
  intros Hb. induction l as [|x l IH]; intros acc; simpl.
  - apply emits_ret.
  - apply emits_bind; [apply Hb | intros acc'; apply IH].
Qed.

Lemma emits_executor_map {A B} P (f : A -> M B) (l : list A) :
  (forall x, emits P (f x)) -> emits P (executor_map f l).
Proof.
  intros Hf. induction l as [|x l IH]; simpl.
  - apply emits_ret.
  - intros s. destruct (Hf x s) as (evs & Hs & Hevs).
    destruct (f x s) as [r s1]; simpl in Hs.
    destruct (IH s1) as (evs' & Hs' & Hevs').
    destruct (executor_map f l s1) as [rs s2]; simpl in Hs'.
    exists (evs ++ evs')%list. simpl. rewrite Hs', Hs, app_assoc. split; [done|].
    by apply Forall_app.
Qed.

Lemma emits_requests_call w (P : event -> Prop) r :
  P (Http r) -> emits P (requests_call w r).
Proof.
  intros Hr s. exists [Http r]. unfold requests_call.
  split; [|by constructor]. destruct (http w _); reflexivity.
Qed.

Lemma emits_refresh_libraries w self dry :
  emits not_http (refresh_libraries w self dry).
Proof.
  unfold refresh_libraries. apply emits_try.
  - destruct (negb (truthy dry)); [|apply emits_ret].
    apply emits_bind; [by apply emits_emit|]. intros _.
    apply emits_bind; [apply emits_lift|]. intros sections.
    apply emits_for_each. intros sec.
    destruct (String.eqb (section_type sec) "show"); [|apply emits_ret].
    apply emits_bind; [by apply emits_emit|]. intros _.
    apply emits_bind; [|intros _; by apply emits_emit].
    destruct (update_error sec); [apply emits_lift | apply emits_ret].
  - intros e. by apply emits_emit.
Qed.

Lemma emits_walk_media_root top : emits removal (walk_media_root top).
Proof.
  destruct top as [| | |p| |]; try apply emits_lift.
  intros s. simpl. destruct (disk s !! p) as [entries|].
  - pose proof (walk_removes p entries) as Hrem.
    destruct (walk p entries) as [[entries' evs] err]. simpl in *.
    exists evs. done.
  - exists []. simpl. by rewrite app_nil_r.
Qed.

Lemma emits_cleanup_empty_directories self :
  emits not_http (cleanup_empty_directories self).
Proof.
  unfold cleanup_empty_directories. destruct (_ || _); [apply emits_ret|].
  apply emits_try.
  - apply (emits_weaken removal); [|apply emits_walk_media_root].
    intros [| | | | |]; simpl; tauto.
  - intros e. by apply emits_emit.
Qed.

Lemma emits_finish w self total : emits not_http (finish w self total).
Proof.
  unfold finish.
  apply emits_bind.
  { destruct (plex_enabled (config self)); [|apply emits_ret].
    apply emits_bind; [by apply emits_emit|]. intros _.
    destruct (plex self); simpl; [apply emits_refresh_libraries | apply emits_lift]. }
  intros _. apply emits_bind.
  { destruct (truthy (delete_empty_dirs (config self))); [|apply emits_ret].
    apply emits_cleanup_empty_directories. }
  intros _. by apply emits_emit.
Qed.

(** X15. When Sonarr is not configured, the run sends no request at
    all: whatever it adds to the trace is a log line, a call of the Plex
    server or the removal of a directory. *)
Theorem no_request_without_sonarr (w : world) (self : MediaCleaner) (now : datetime)
    (s : state) :
  sonarr_enabled (config self) = false ->
  exists evs,
    trace (snd (run w self now s)) = (trace s ++ evs)%list
    /\ forall r, Http r ∉ evs.
Proof.
  intros Hen.
  assert (Hrun : emits not_http (run w self now)).
  { rewrite run_finish. rewrite Hen.
    apply emits_bind; [by apply emits_emit|]. intros _.
    apply emits_bind; [apply emits_lift|]. intros cutoff.
    apply emits_bind; [apply emits_ret|]. intros total. apply emits_finish. }
  destruct (Hrun s) as (evs & Hs & Hevs). exists evs. split; [exact Hs|].
  intros r Hr. rewrite Forall_forall in Hevs. exact (Hevs _ Hr).
Qed.

Lemma no_request_without_sonarr_witness :
  exists evs,
    trace (snd (run scenario plex_only first_of_march a_disk))
    = (trace a_disk ++ evs)%list
    /\ forall r, Http r ∉ evs.
Proof.
  apply (no_request_without_sonarr scenario plex_only first_of_march a_disk).
  reflexivity.
Defined.

(** ** How a run ends *)

Lemma completes_ret : completes (mret tt).
Proof. intros s. exists s, []. split; [reflexivity | by rewrite app_nil_r]. Qed.

Lemma completes_emit ev : completes (emit ev).
Proof. intros s. exists (say s [ev]), [ev]. done. Qed.

Lemma completes_bind (m : M unit) (f : unit -> M unit) :
  completes m -> (forall a, completes (f a)) -> completes (m ≫= f).
Proof.
  intros Hm Hf s. destruct (Hm s) as (s1 & evs & Hs & Ht).
  destruct (Hf tt s1) as (s2 & evs' & Hs' & Ht').
  exists s2, (evs ++ evs')%list. rewrite bind_run, Hs, Hs'. split; [done|].
  by rewrite Ht', Ht, app_assoc.
Qed.

Lemma completes_try_all (body : M unit) (handler : exn -> M unit) :
  emits (fun _ => True) body -> (forall e, completes (handler e)) ->
  completes (try_except body is_Exception handler).
Proof.
  intros Hb Hh s. unfold try_except.
  destruct (Hb s) as (evs & Hs & _).
  destruct (body s) as [[[]|e] s1]; simpl in *.
  - exists s1, evs. done.
  - destruct (Hh e s1) as (s2 & evs' & Hs' & Ht').
    exists s2, (evs ++ evs')%list. split; [done|]. by rewrite Ht', Hs, app_assoc.
Qed.

Lemma completes_refresh_libraries w self dry : completes (refresh_libraries w self dry).
Proof.
  unfold refresh_libraries. apply completes_try_all.
  - assert (Hbody : emits (fun _ => True)
              (if negb (truthy dry)
               then _ ← emit PlexSections;
                    sections ← lift (plex_library w);
                    for_each sections (fun section =>
                      if String.eqb (section_type section) "show" then
                        _ ← emit (PlexUpdate (section_title section));
                        _ ← match update_error section with
                            | Some e => raise e
                            | None => mret tt
                            end;
                        logger_info [Lit "Refreshed Plex library: ";
                                     Val (PStr (section_title section))]
                      else mret tt)
               else mret tt)).
    { destruct (negb (truthy dry)); [|apply emits_ret].
      apply emits_bind; [by apply emits_emit|]. intros _.
      apply emits_bind; [apply emits_lift|]. intros sections.
      apply emits_for_each. intros sec.
      destruct (String.eqb (section_type sec) "show"); [|apply emits_ret].
      apply emits_bind; [by apply emits_emit|]. intros _.
      apply emits_bind; [|intros _; by apply emits_emit].
      destruct (update_error sec); [apply emits_lift | apply emits_ret]. }
    apply Hbody.
  - intros e. apply completes_emit.
Qed.

Lemma completes_cleanup_empty_directories self :
  completes (cleanup_empty_directories self).
Proof.
  unfold cleanup_empty_directories. destruct (_ || _); [apply completes_ret|].
  apply completes_try_all.
  - apply (emits_weaken removal); [done | apply emits_walk_media_root].
  - intros e. apply completes_emit.
Qed.

(** X16. Once the Sonarr pass is over the run cannot fail, provided
    there is a Plex manager when Plex is enabled: whatever Plex and the
    file system do, [run] returns and the summary is the last line it
    logs. *)
Theorem finish_always_logs_summary (w : world) (self : MediaCleaner)
    (total_processed : Z) (s : state) :
  (plex_enabled (config self) = true -> is_Some (plex self)) ->
  exists s' evs,
    finish w self total_processed s = (Ret tt, s')
    /\ trace s' = (trace s ++ evs ++ [summary self total_processed])%list.
Proof.
  intros Hplex.
  assert (H1 : completes
            (if plex_enabled (config self) then
               _ ← logger_info [Lit "Refreshing Plex libraries..."];
               attribute (plex self) (fun manager =>
                 refresh_libraries w manager (dry_run (config self)))
             else mret tt)).
  { destruct (plex_enabled (config self)); [|apply completes_ret].
    destruct (Hplex eq_refl) as [manager ->].
    apply completes_bind; [apply completes_emit|]. intros _. simpl.
    apply completes_refresh_libraries. }
  assert (H2 : completes
            (if truthy (delete_empty_dirs (config self))
             then cleanup_empty_directories self
             else mret tt)).
  { destruct (truthy (delete_empty_dirs (config self))); [|apply completes_ret].
    apply completes_cleanup_empty_directories. }
  destruct (H1 s) as (s1 & evs1 & Hs1 & Ht1).
  destruct (H2 s1) as (s2 & evs2 & Hs2 & Ht2).
  exists (say s2 [summary self total_processed]), (evs1 ++ evs2)%list.
  unfold finish. rewrite bind_run, Hs1, bind_run, Hs2.
  split; [reflexivity|]. simpl. rewrite Ht2, Ht1, <- !app_assoc. reflexivity.
Qed.

Lemma finish_always_logs_summary_witness :
  exists s' evs,
    finish plex_with_broken_library (a_cleaner false) 0 two_empty = (Ret tt, s')
    /\ trace s' = (trace two_empty ++ evs ++ [summary (a_cleaner false) 0])%list.
Proof.
  apply (finish_always_logs_summary plex_with_broken_library (a_cleaner false) 0 two_empty).
  intros _. by eexists.
Defined.

Lemma emits_fetch {A} w (P : event -> Prop) req (k : pyval -> res A) handler :
  P (Http req) -> (forall e, emits P (handler e)) ->
  emits P (fetching w req k handler).
Proof.
  intros Hreq Hh. apply emits_try; [|exact Hh].
  apply emits_bind; [by apply emits_requests_call|]. intros response.
  apply emits_bind; [|intros _; apply emits_lift].
  unfold raise_for_status. destruct (_ && _); [apply emits_lift | apply emits_ret].
Qed.

Lemma emits_get_daily_series w self : emits of_sonarr_pass (get_daily_series w self).
Proof.
  apply (emits_fetch w of_sonarr_pass (series_request self)
           (fun body => l ← iterate body; comprehension is_daily l)); [done|].
  intros e. apply emits_bind; [by apply emits_emit | intros _; apply emits_ret].
Qed.

Lemma emits_get_episodes_to_delete w self sid cutoff :
  emits of_sonarr_pass (get_episodes_to_delete w self sid cutoff).
Proof.
  apply (emits_fetch w of_sonarr_pass (episode_request self sid)
           (fun body => l ← iterate body; comprehension (to_delete cutoff) l)); [done|].
  intros e. apply emits_bind; [by apply emits_emit | intros _; apply emits_ret].
Qed.

Lemma emits_process_episode w self episode dry :
  emits of_sonarr_pass (process_episode w self episode dry).
Proof.
  unfold process_episode. apply emits_try.
  - apply emits_bind.
    + destruct (negb (truthy dry)); [|apply emits_ret].
      apply emits_bind; [apply emits_lift|]. intros ep.
      apply emits_bind; [apply emits_lift|]. intros id.
      apply emits_bind; [by apply emits_requests_call|]. intros _.
      apply emits_bind; [apply emits_lift|]. intros file_id.
      apply emits_bind; [by apply emits_requests_call | intros _; apply emits_ret].
    + intros ep. apply emits_bind; [apply emits_lift|]. intros title.
      apply emits_bind; [by apply emits_emit | intros _; apply emits_ret].
  - intros e. apply emits_bind; [apply emits_lift|]. intros id.
    apply emits_bind; [by apply emits_emit | intros _; apply emits_ret].
Qed.

Lemma emits_process_serie w self manager cutoff total serie :
  emits of_sonarr_pass (process_serie w self manager cutoff total serie).
Proof.
  unfold process_serie.
  apply emits_bind; [apply emits_lift|]. intros id.
  apply emits_bind; [apply emits_get_episodes_to_delete|]. intros [|ep episodes].
  - apply emits_ret.
  - apply emits_bind; [apply emits_lift|]. intros title.
    apply emits_bind; [by apply emits_emit|]. intros _.
    unfold process_episodes. destruct (truthy (parallel_processing (config self))).
    + apply emits_bind; [apply emits_lift|]. intros _.
      apply emits_bind; [|intros results; apply emits_ret].
      apply emits_executor_map. intros x. apply emits_process_episode.
    + apply emits_fold_each. intros acc x.
      apply emits_bind; [apply emits_process_episode | intros r; apply emits_ret].
Qed.

Lemma finish_without_plex_manager w self total s :
  plex_enabled (config self) = true ->
  plex self = None ->
  finish w self total s
  = (Raise AttributeError, say s [LogInfo [Lit "Refreshing Plex libraries..."]]).
Proof. intros Hen Hnone. unfold finish. rewrite Hen, Hnone. reflexivity. Qed.

(** X17. [__init__] makes no Plex manager when the Plex client library
    is not installed, and [run] does not test for it: with a [plex] block
    in the configuration every run raises, at the latest when it comes to
    the refresh.  Up to then it has sent requests and logged lines only:
    no directory is pruned and no summary follows. *)
Theorem plex_block_without_plexapi_aborts_run (w : world) (cfg : Config)
    (connect : option exn) (self : MediaCleaner) (now : datetime) (s : state) :
  MediaCleaner_init false connect cfg = Ret self ->
  plex_enabled cfg = true ->
  exists e evs,
    fst (run w self now s) = Raise e
    /\ trace (snd (run w self now s)) = (trace s ++ evs)%list
    /\ Forall of_sonarr_pass evs.
Proof.
  intros Hinit Hen. unfold MediaCleaner_init in Hinit.
  rewrite andb_false_r in Hinit. simpl in Hinit. inversion Hinit as [Hself]. clear Hinit.
  subst self.
  set (self := {| config := cfg;
                  sonarr := if sonarr_enabled cfg
                            then Some {| api_key := sonarr_api_key cfg;
                                         host := sonarr_host cfg |}
                            else None;
                  plex := None |}).
  set (pass := fun cutoff : datetime =>
         if sonarr_enabled (config self) then
           _ ← logger_info [Lit "Processing Sonarr content..."];
           attribute (sonarr self) (fun manager =>
             series ← get_daily_series w manager;
             fold_each series 0 (process_serie w self manager cutoff))
         else mret 0).
  assert (Hpass : forall cutoff, emits of_sonarr_pass (pass cutoff)).
  { intros cutoff. unfold pass. destruct (sonarr_enabled (config self)); [|apply emits_ret].
    apply emits_bind; [by apply emits_emit|]. intros _.
    destruct (sonarr self) as [manager|]; simpl; [|apply emits_lift].
    apply emits_bind; [apply emits_get_daily_series|]. intros series.
    apply emits_fold_each. intros acc serie. apply emits_process_serie. }
  assert (Hrun : exists e s' evs,
             run w self now s = (Raise e, s')
             /\ trace s' = (trace s ++ evs)%list /\ Forall of_sonarr_pass evs).
  { rewrite run_finish. rewrite bind_run. unfold logger_info at 1. rewrite emit_run.
    rewrite bind_run. unfold lift at 1.
    destruct (minus_days now (days_threshold (config self))) as [cutoff|e].
    - fold (pass cutoff). rewrite bind_run.
      destruct (Hpass cutoff (say s [LogInfo [Lit "Starting media cleanup process..."]]))
        as (evs & Hs & Hevs).
      destruct (pass cutoff _) as [[total|e] s1]; simpl in Hs.
      + rewrite (finish_without_plex_manager w self total s1 Hen eq_refl).
        eexists AttributeError, _,
          ([LogInfo [Lit "Starting media cleanup process..."]] ++ evs
           ++ [LogInfo [Lit "Refreshing Plex libraries..."]])%list.
        split; [reflexivity|]. split.
        * simpl. rewrite Hs. rewrite <- !app_assoc. reflexivity.
        * apply Forall_app. split; [by repeat constructor|].
          apply Forall_app. split; [done | by repeat constructor].
      + eexists e, _, ([LogInfo [Lit "Starting media cleanup process..."]] ++ evs)%list.
        split; [reflexivity|]. split.
        * rewrite Hs. rewrite <- !app_assoc. reflexivity.
        * apply Forall_app. split; [by repeat constructor | done].
    - eexists e, _, [LogInfo [Lit "Starting media cleanup process..."]].
      split; [reflexivity|]. split; [reflexivity | by repeat constructor]. }
  destruct Hrun as (e & s' & evs & Hrun & Hs & Hevs).
  exists e, evs. rewrite Hrun. done.
Qed.

Lemma plex_block_without_plexapi_aborts_run_witness :
  exists e evs,
    fst (run scenario
           {| config := a_config false; sonarr := Some a_manager; plex := None |}
           first_of_march a_disk) = Raise e
    /\ trace (snd (run scenario
                     {| config := a_config false; sonarr := Some a_manager; plex := None |}
                     first_of_march a_disk))
       = (trace a_disk ++ evs)%list
    /\ Forall of_sonarr_pass evs.
Proof.
  apply (plex_block_without_plexapi_aborts_run scenario (a_config false) None
           {| config := a_config false; sonarr := Some a_manager; plex := None |}
           first_of_march a_disk); reflexivity.
Defined.

(** ** What pruning keeps and what it leaves *)

Lemma remove_empty_keeps_files root entries :
  flat_map (files_in root) (remove_empty root entries).1.1
  = flat_map (files_in root) entries.
Proof.
  induction entries as [|[f|name listable removable sub] rest IH]; simpl.
  - reflexivity.
  - destruct (remove_empty root rest) as [[rest' evs] err]. simpl in *. by rewrite IH.
  - destruct listable; simpl; [|reflexivity].
    destruct sub as [|c sub].
    + destruct removable; simpl; [|reflexivity].
      destruct (remove_empty root rest) as [[rest' evs] err]. simpl in *. exact IH.
    + destruct (remove_empty root rest) as [[rest' evs] err]. simpl in *. by rewrite IH.
Qed.

Lemma descend_keeps_files top entries :
  Forall (fun c => forall parent, files_in parent (walk_into parent c).1.1
                                  = files_in parent c) entries ->
  flat_map (files_in top) (descend top entries).1.1 = flat_map (files_in top) entries.
Proof.
  induction 1 as [|c rest Hc _ IH]; simpl; [reflexivity|].
  specialize (Hc top).
  destruct (walk_into top c) as [[c' evs] [e|]]; simpl in *.
  - by rewrite Hc.
  - destruct (descend top rest) as [[rest' evs'] err]. simpl in *. by rewrite Hc, IH.
Qed.

Lemma walk_into_keeps_files n :
  forall parent, files_in parent (walk_into parent n).1.1 = files_in parent n.
Proof.
  induction n as [name|name listable removable entries IH] using node_tree_ind;
    intros parent; [reflexivity|].
  rewrite walk_into_dir. destruct listable; [|reflexivity].
  pose proof (descend_keeps_files (path_join parent name) entries IH) as Hd.
  destruct (descend (path_join parent name) entries) as [[entries1 evs1] [e|]];
    simpl in *; [exact Hd|].
  pose proof (remove_empty_keeps_files (path_join parent name) entries1) as Hr.
  destruct (remove_empty (path_join parent name) entries1) as [[entries2 evs2] err2].
  simpl in *. by rewrite Hr.
Qed.

Lemma walk_keeps_files top entries :
  flat_map (files_in top) (walk top entries).1.1 = flat_map (files_in top) entries.
Proof.
  unfold walk.
  assert (Hd : flat_map (files_in top) (descend top entries).1.1
               = flat_map (files_in top) entries).
  { apply descend_keeps_files, Forall_forall. intros c _. apply walk_into_keeps_files. }
  destruct (descend top entries) as [[entries1 evs1] [e|]]; simpl in *; [exact Hd|].
  pose proof (remove_empty_keeps_files top entries1) as Hr.
  destruct (remove_empty top entries1) as [[entries2 evs2] err2].
  simpl in *. by rewrite Hr.
Qed.

(** X18. [cleanup_empty_directories] never loses a file: whatever the
    configuration and the disk, and whichever directory it fails on, the
    files below every directory are those that were there before. *)
Theorem cleanup_keeps_every_file (self : MediaCleaner) (s : state) (top : string) :
  files_on (snd (cleanup_empty_directories self s)) top = files_on s top.
Proof.
  unfold cleanup_empty_directories. destruct (_ || _); [reflexivity|].
  unfold try_except, walk_media_root.
  destruct (media_root (config self)) as [| | |p| |]; try reflexivity.
  destruct (disk s !! p) as [entries|] eqn:Hdisk; [|reflexivity].
  pose proof (walk_keeps_files p entries) as Hfiles.
  destruct (walk p entries) as [[entries' evs] err]. simpl in Hfiles.
  assert (Hon : files_on {| trace := trace s ++ evs; disk := <[p := entries']> (disk s) |}
                  top = files_on s top).
  { unfold files_on. simpl. destruct (decide (p = top)) as [->|Hne].
    - by rewrite lookup_insert_eq, Hdisk.
    - by rewrite lookup_insert_ne. }
  destruct err as [e|]; simpl; exact Hon.
Qed.

Lemma remove_empty_settles root entries :
  Forall walked_through entries ->
  exists entries' evs,
    remove_empty root entries = (entries', evs, None)
    /\ forallb settled entries' = true.
Proof.
  induction 1 as [|[f|name listable removable sub] rest Hn _ IH]; simpl.
  - by exists [], [].
  - destruct IH as (rest' & evs & -> & Hrest). exists (File f :: rest'), evs. done.
  - destruct Hn as (-> & -> & Hsub). simpl.
    destruct IH as (rest' & evs & -> & Hrest).
    destruct sub as [|c sub].
    + eexists rest', _. done.
    + eexists (Dir name true true (c :: sub) :: rest'), evs. split; [done|].
      simpl in *. by rewrite Hsub, Hrest.
Qed.

Lemma descend_walks_through top entries :
  Forall (fun c => healthy c = true ->
                   forall parent, exists c' evs,
                     walk_into parent c = (c', evs, None) /\ walked_through c') entries ->
  forallb healthy entries = true ->
  exists entries' evs,
    descend top entries = (entries', evs, None) /\ Forall walked_through entries'.
Proof.
  induction 1 as [|c rest Hc _ IH]; simpl; intros Hh.
  - by exists [], [].
  - apply andb_true_iff in Hh as [Hhc Hhr].
    destruct (Hc Hhc top) as (c' & evs & -> & Hc').
    destruct (IH Hhr) as (rest' & evs' & -> & Hrest').
    eexists (c' :: rest'), _. split; [done|]. by constructor.
Qed.

Lemma walk_into_walks_through n :
  healthy n = true ->
  forall parent, exists n' evs, walk_into parent n = (n', evs, None) /\ walked_through n'.
Proof.
  induction n as [name|name listable removable entries IH] using node_tree_ind;
    intros Hh parent.
  - by exists (File name), [].
  - simpl in Hh. apply andb_true_iff in Hh as [Hh Hentries].
    apply andb_true_iff in Hh as [-> ->].
    rewrite walk_into_dir.
    destruct (descend_walks_through (path_join parent name) entries IH Hentries)
      as (entries1 & evs1 & -> & H1).
    destruct (remove_empty_settles (path_join parent name) entries1 H1)
      as (entries2 & evs2 & -> & H2).
    eexists _, _. split; [reflexivity|]. done.
Qed.

Lemma walk_settles top entries :
  forallb healthy entries = true ->
  exists entries' evs,
    walk top entries = (entries', evs, None) /\ forallb settled entries' = true.
Proof.
  intros Hh. unfold walk.
  destruct (descend_walks_through top entries) as (entries1 & evs1 & -> & H1); [|done|].
  { apply Forall_forall. intros c _ Hc. by apply walk_into_walks_through. }
  destruct (remove_empty_settles top entries1 H1) as (entries2 & evs2 & -> & H2).
  eexists _, _. done.
Qed.

(** X19. When every directory below the media root can be listed and
    removed, one pass prunes the whole tree: it logs no error, and
    afterwards every directory that is left has an entry, at every depth.
    A directory that held nothing but empty directories is removed
    with them. *)
Theorem one_pass_prunes_a_healthy_tree (self : MediaCleaner) (s : state) (top : string)
    (entries : list node) :
  truthy (delete_empty_dirs (config self)) = true ->
  truthy (dry_run (config self)) = false ->
  media_root (config self) = PStr top ->
  disk s !! top = Some entries ->
  forallb healthy entries = true ->
  exists entries' removals,
    cleanup_empty_directories self s
    = (Ret tt, {| trace := trace s ++ removals; disk := <[top := entries']> (disk s) |})
    /\ Forall removal removals
    /\ forallb settled entries' = true.
Proof.
  intros Hdel Hdry Hroot Hdisk Hh.
  destruct (walk_settles top entries Hh) as (entries' & evs & Hwalk & Hset).
  pose proof (walk_removes top entries) as Hrem. rewrite Hwalk in Hrem. simpl in Hrem.
  exists entries', evs. split; [|done].
  unfold cleanup_empty_directories. rewrite Hdel, Hdry.
  change (negb true || false) with false. cbv iota.
  unfold try_except, walk_media_root. rewrite Hroot. cbv beta iota.
  rewrite Hdisk, Hwalk. reflexivity.
Qed.

Lemma one_pass_prunes_a_healthy_tree_witness :
  exists entries' removals,
    cleanup_empty_directories (a_cleaner false) nested_disk
    = (Ret tt, {| trace := trace nested_disk ++ removals;
                  disk := <["/media" := entries']> (disk nested_disk) |})
    /\ Forall removal removals
    /\ forallb settled entries' = true.
Proof.
  apply (one_pass_prunes_a_healthy_tree (a_cleaner false) nested_disk "/media" nested);
    reflexivity.
Defined.

Example prune_nested :
  disk (snd (cleanup_empty_directories (a_cleaner false) nested_disk))
  = {[ "/media" := after_pruning ]}.
Proof. vm_compute. reflexivity. Qed.

Lemma remove_empty_settled root entries :
  forallb settled entries = true -> remove_empty root entries = (entries, [], None).
Proof.
  induction entries as [|[f|name listable removable sub] rest IH]; simpl; intros Hs.
  - reflexivity.
  - by rewrite (IH Hs).
  - apply andb_true_iff in Hs as [Hn Hrest].
    apply andb_true_iff in Hn as [Hn _]. apply andb_true_iff in Hn as [-> Hsub].
    simpl. destruct sub as [|c sub]; [discriminate|]. by rewrite (IH Hrest).
Qed.

Lemma descend_settled top entries :
  Forall (fun c => settled c = true ->
                   forall parent, walk_into parent c = (c, [], None)) entries ->
  forallb settled entries = true ->
  descend top entries = (entries, [], None).
Proof.
  induction 1 as [|c rest Hc _ IH]; simpl; intros Hs; [reflexivity|].
  apply andb_true_iff in Hs as [Hsc Hsr]. by rewrite (Hc Hsc top), (IH Hsr).
Qed.

Lemma walk_into_settled n :
  settled n = true -> forall parent, walk_into parent n = (n, [], None).
Proof.
  induction n as [name|name listable removable entries IH] using node_tree_ind;
    intros Hs parent; [reflexivity|].
  simpl in Hs. apply andb_true_iff in Hs as [Hn Hentries].
  apply andb_true_iff in Hn as [-> _].
  rewrite walk_into_dir.
  rewrite (descend_settled (path_join parent name) entries IH Hentries).
  by rewrite (remove_empty_settled (path_join parent name) entries Hentries).
Qed.

(** X20. On a tree all of whose directories can be listed and have an
    entry, pruning does nothing at all: no directory is removed, nothing
    is logged, and the state is the one before.  A second pass after the
    pass of X19 is therefore without effect. *)
Theorem pruning_a_settled_tree_does_nothing (self : MediaCleaner) (s : state)
    (top : string) (entries : list node) :
  media_root (config self) = PStr top ->
  disk s !! top = Some entries ->
  forallb settled entries = true ->
  cleanup_empty_directories self s = (Ret tt, s).
Proof.
  intros Hroot Hdisk Hs.
  assert (Hwalk : walk top entries = (entries, [], None)).
  { unfold walk. rewrite (descend_settled top entries); [|by apply Forall_forall;
      intros c _ Hc; apply walk_into_settled | done].
    by rewrite (remove_empty_settled top entries Hs). }
  unfold cleanup_empty_directories. destruct (_ || _); [reflexivity|].
  unfold try_except, walk_media_root. rewrite Hroot. cbv beta iota.
  rewrite Hdisk, Hwalk. simpl. rewrite app_nil_r, (insert_id _ _ _ Hdisk).
  by destruct s.
Qed.

Lemma pruning_a_settled_tree_does_nothing_witness :
  cleanup_empty_directories (a_cleaner false)
    {| trace := []; disk := {[ "/media" := after_pruning ]} |}
  = (Ret tt, {| trace := []; disk := {[ "/media" := after_pruning ]} |}).
Proof.
  apply (pruning_a_settled_tree_does_nothing (a_cleaner false)
           {| trace := []; disk := {[ "/media" := after_pruning ]} |}
           "/media" after_pruning); reflexivity.
Defined.

(** ** [_load_config] *)

Ltac load_step :=
  match goal with
  | H : context [match ?x with _ => _ end] |- _ =>
      let E := fresh "E" in destruct x eqn:E; simpl in H; try discriminate
  end.

(** X21. A configuration that [_load_config] accepts has a backend: the
    document is a mapping, Sonarr is enabled exactly when it has a
    [sonarr] block and Plex exactly when it has a [plex] block, and at
    least one of the two is enabled. *)
Theorem loaded_config_has_a_backend (file : res pyval) (cfg : Config) :
  _load_config file = Started cfg ->
  exists data,
    file = Ret (PDict data)
    /\ sonarr_enabled cfg = bool_decide (is_Some (data !! "sonarr"))
    /\ plex_enabled cfg = bool_decide (is_Some (data !! "plex"))
    /\ sonarr_enabled cfg || plex_enabled cfg = true.
Proof.
  unfold _load_config. destruct file as [data|e]; simpl; [|discriminate].
  destruct (build_config data) as [c|e] eqn:Hbuild; [|discriminate].
  intros H. inversion H; subst c. clear H.
  destruct data as [| | | | |data];
    try (unfold build_config, subscript2 in Hbuild; simpl in Hbuild; discriminate).
  exists data. split; [reflexivity|].
  unfold build_config, subscript2, get2 in Hbuild.
  unfold mbind, res_bind, mret, res_ret in Hbuild. simpl in Hbuild.
  repeat load_step; inversion Hbuild; subst cfg; simpl;
    rewrite ?orb_true_r; repeat split; try reflexivity;
    match goal with
    | H : negb (?a || ?b) = false |- _ => by apply negb_false_iff in H
    | _ => idtac
    end.
Qed.

Lemma loaded_config_has_a_backend_witness :
  exists data,
    Ret (PDict both_backends) = Ret (PDict data)
    /\ sonarr_enabled loaded_both = bool_decide (is_Some (data !! "sonarr"))
    /\ plex_enabled loaded_both = bool_decide (is_Some (data !! "plex"))
    /\ sonarr_enabled loaded_both || plex_enabled loaded_both = true.
Proof.
  apply (loaded_config_has_a_backend (Ret (PDict both_backends)) loaded_both).
  vm_compute. reflexivity.
Defined.

(** X22. A document with a usable [cleanup] section and a [performance]
    section, and neither a [sonarr] nor a [plex] block, is rejected: the
    [ValueError] raised for it ends the process like any other error of
    the loading. *)
Theorem config_without_backend_exits (data cleanup performance : gmap string pyval) :
  data !! "cleanup" = Some (PDict cleanup) ->
  is_Some (cleanup !! "days_threshold") ->
  is_Some (cleanup !! "media_root") ->
  data !! "performance" = Some (PDict performance) ->
  data !! "sonarr" = None ->
  data !! "plex" = None ->
  _load_config (Ret (PDict data))
  = SystemExit [Lit "Failed to load configuration: "; Exc ValueError].
Proof.
  intros Hc [d Hd] [r Hr] Hp Hs Hx.
  unfold _load_config, build_config, subscript2, get2. run_step.
  rewrite Hc. simpl. rewrite Hd, Hr. simpl. rewrite Hp. simpl.
  rewrite Hs, Hx. reflexivity.
Qed.

Lemma config_without_backend_exits_witness :
  _load_config (Ret (PDict no_backend))
  = SystemExit [Lit "Failed to load configuration: "; Exc ValueError].
Proof.
  apply (config_without_backend_exits no_backend
           (<["days_threshold" := PInt 30]> (<["media_root" := PStr "/media"]> ∅)) ∅);
    try reflexivity; by eexists.
Defined.

(** X23. The fields of a loaded configuration are those of the document:
    the two required keys of [cleanup] as they are, and for each of the
    four optional keys its value, or else its default: [True] for
    [delete_empty_dirs] and [parallel_processing], 4 for [max_workers],
    [False] for [dry_run]. *)
Theorem loaded_config_mirrors_document (data cleanup performance : gmap string pyval)
    (cfg : Config) :
  _load_config (Ret (PDict data)) = Started cfg ->
  data !! "cleanup" = Some (PDict cleanup) ->
  data !! "performance" = Some (PDict performance) ->
  cleanup !! "days_threshold" = Some (days_threshold cfg)
  /\ cleanup !! "media_root" = Some (media_root cfg)
  /\ delete_empty_dirs cfg = default (PBool true) (cleanup !! "delete_empty_dirs")
  /\ parallel_processing cfg = default (PBool true) (performance !! "parallel_processing")
  /\ max_workers cfg = default (PInt 4) (performance !! "max_workers")
  /\ dry_run cfg = default (PBool false) (cleanup !! "dry_run").
Proof.
  unfold _load_config. simpl.
  destruct (build_config (PDict data)) as [c|e] eqn:Hbuild; [|discriminate].
  intros H Hc Hp. inversion H; subst c. clear H.
  unfold build_config, subscript2, get2 in Hbuild.
  unfold mbind, res_bind, mret, res_ret in Hbuild. simpl in Hbuild.
  rewrite Hc, Hp in Hbuild. simpl in Hbuild.
  repeat load_step; inversion Hbuild; subst cfg; simpl;
    repeat match goal with
           | H : Ret _ = Ret _ |- _ => inversion H; clear H; subst
           end; done.
Qed.

Lemma loaded_config_mirrors_document_witness :
  (<["days_threshold" := PInt 30]> (<["media_root" := PStr "/media"]> ∅)
     : gmap string pyval) !! "days_threshold" = Some (days_threshold loaded_both)
  /\ (<["days_threshold" := PInt 30]> (<["media_root" := PStr "/media"]> ∅)
        : gmap string pyval) !! "media_root" = Some (media_root loaded_both)
  /\ delete_empty_dirs loaded_both
     = default (PBool true)
         ((<["days_threshold" := PInt 30]> (<["media_root" := PStr "/media"]> ∅)
             : gmap string pyval) !! "delete_empty_dirs")
  /\ parallel_processing loaded_both
     = default (PBool true)
         ((<["max_workers" := PInt 8]> ∅ : gmap string pyval) !! "parallel_processing")
  /\ max_workers loaded_both
     = default (PInt 4) ((<["max_workers" := PInt 8]> ∅ : gmap string pyval) !! "max_workers")
  /\ dry_run loaded_both
     = default (PBool false)
         ((<["days_threshold" := PInt 30]> (<["media_root" := PStr "/media"]> ∅)
             : gmap string pyval) !! "dry_run").
Proof.
  apply (loaded_config_mirrors_document both_backends
           (<["days_threshold" := PInt 30]> (<["media_root" := PStr "/media"]> ∅))
           (<["max_workers" := PInt 8]> ∅) loaded_both);
    vm_compute; reflexivity.
Defined.

(** ** The count of a batch *)

Lemma sum_ones_bounds (results : list bool) :
  0 <= sum (ones results) <= Z.of_nat (List.length results).
Proof.
  induction results as [|[] results IH].
  - unfold sum. simpl. lia.
  - change (ones (true :: results)) with (1 :: ones results).
    rewrite sum_cons. simpl List.length. lia.
  - change (ones (false :: results)) with (ones results). simpl List.length. lia.
Qed.

Lemma executor_map_length {A B} (f : A -> M B) (l : list A) s results s' :
  executor_map f l s = (Ret results, s') -> List.length results = List.length l.
Proof.
  revert s results s'. induction l as [|x l IH]; intros s results s'; simpl.
  - intros H. by inversion H.
  - destruct (f x s) as [[r|e] s1]; destruct (executor_map f l s1) as [[rs|e'] s2] eqn:Hm;
      simpl; intros H; inversion H; subst.
    simpl. by rewrite (IH _ _ _ Hm).
Qed.

Lemma fold_each_count_bounds {A} (f : A -> M bool) (l : list A) :
  forall total s total' s',
    fold_each l total (fun total x => result ← f x; mret (count_one total result)) s
    = (Ret total', s') ->
    total <= total' <= total + Z.of_nat (List.length l).
Proof.
  induction l as [|x l IH]; intros total s total' s'; simpl.
  - intros H. inversion H. lia.
  - rewrite !bind_run. destruct (f x s) as [[r|e] s1]; [|discriminate].
    simpl. intros H. apply IH in H. unfold count_one in H. destruct r; lia.
Qed.

(** X24. Whether the episodes of a series are processed by the pool or
    one after the other, the batch adds to the count at least 0 and at
    most the number of its episodes. *)
Theorem batch_count_is_bounded (w : world) (self : MediaCleaner)
    (manager : SonarrManager) (episodes : list pyval) (total total' : Z) (s s' : state) :
  process_episodes w self manager episodes total s = (Ret total', s') ->
  total <= total' <= total + Z.of_nat (List.length episodes).
Proof.
  unfold process_episodes. destruct (truthy (parallel_processing (config self))).
  - rewrite bind_run. unfold lift.
    destruct (ThreadPoolExecutor (max_workers (config self))); [|discriminate].
    rewrite bind_run.
    destruct (executor_map _ episodes s) as [[results|e] s1] eqn:Hmap; [|discriminate].
    intros H. inversion H; subst. unfold count_collected.
    pose proof (sum_ones_bounds results) as Hb.
    rewrite (executor_map_length _ _ _ _ _ Hmap) in Hb. lia.
  - apply fold_each_count_bounds.
Qed.

Lemma batch_count_is_bounded_witness :
  5 <= 6 <= 5 + Z.of_nat (List.length [E1; PDict nameless]).
Proof.
  apply (batch_count_is_bounded sonarr_down (a_cleaner false) a_manager
           [E1; PDict nameless] 5 6 fresh
           (snd (process_episodes sonarr_down (a_cleaner false) a_manager
                   [E1; PDict nameless] 5 fresh))).
  vm_compute. reflexivity.
Defined.

Lemma executor_map_dry w manager dry (episodes : list (gmap string pyval)) s :
  truthy dry = true ->
  executor_map (fun ep => process_episode w manager ep dry) (PDict <$> episodes) s
  = (Ret ((fun _ => true) <$> episodes),
     say s ((fun ep => processed_line ep "Dry run") <$> episodes)).
Proof.
  intros Hdry. revert s. induction episodes as [|ep episodes IH]; intros s; simpl.
  - by rewrite say_nil.
  - rewrite (process_episode_dry w manager ep dry s Hdry), IH. simpl.
    by rewrite say_say.
Qed.

Lemma count_in_loop_all_true (total : Z) {A} (l : list A) :
  count_in_loop total ((fun _ => true) <$> l) = total + Z.of_nat (List.length l).
Proof.
  revert total. induction l as [|x l IH]; intros total; unfold count_in_loop in *; simpl.
  - lia.
  - rewrite IH. unfold count_one. lia.
Qed.

Lemma count_collected_all_true (total : Z) {A} (l : list A) :
  count_collected total ((fun _ => true) <$> l) = total + Z.of_nat (List.length l).
Proof.
  revert total. induction l as [|x l IH]; intros total.
  - unfold count_collected, sum. simpl. lia.
  - change ((fun _ : A => true) <$> x :: l) with (true :: ((fun _ : A => true) <$> l)).
    rewrite count_collected_cons, IH. unfold count_one. simpl List.length. lia.
Qed.

(** X25. In a dry run every episode of the batch is counted as
    processed: the count grows by the number of the episodes, and all
    that the batch does is log one line for each of them.  In the
    sequential branch the lines come in the order of the episodes; of
    the parallel branch, where the workers of the pool log as they come
    to it, the order of the lines is left open.  In the parallel branch
    the batch is processed when the pool can be made. *)
Theorem dry_run_counts_every_episode (w : world) (self : MediaCleaner)
    (manager : SonarrManager) (episodes : list (gmap string pyval)) (total : Z)
    (s : state) :
  truthy (dry_run (config self)) = true ->
  (truthy (parallel_processing (config self)) = true ->
   ThreadPoolExecutor (max_workers (config self)) = Ret tt) ->
  exists lines,
    process_episodes w self manager (PDict <$> episodes) total s
    = (Ret (total + Z.of_nat (List.length episodes)), say s lines)
    /\ lines ≡ₚ (fun ep => processed_line ep "Dry run") <$> episodes
    /\ (truthy (parallel_processing (config self)) = false ->
        lines = (fun ep => processed_line ep "Dry run") <$> episodes).
Proof.
  intros Hdry Hpool.
  pose proof (executor_map_dry w manager (dry_run (config self)) episodes s Hdry) as Hmap.
  exists ((fun ep => processed_line ep "Dry run") <$> episodes).
  split; [|by split].
  destruct (truthy (parallel_processing (config self))) eqn:Hpar.
  - rewrite (process_episodes_parallel w self manager _ total s _ _ Hpar (Hpool eq_refl) Hmap).
    by rewrite count_collected_all_true.
  - rewrite (process_episodes_sequential w self manager _ total s _ _ Hpar Hmap).
    by rewrite count_in_loop_all_true.
Qed.

Lemma dry_run_counts_every_episode_witness :
  exists lines,
    process_episodes sonarr_down (a_cleaner true) a_manager
      (PDict <$> [an_episode; nameless]) 3 fresh
    = (Ret (3 + Z.of_nat (List.length [an_episode; nameless])), say fresh lines)
    /\ lines ≡ₚ (fun ep => processed_line ep "Dry run") <$> [an_episode; nameless]
    /\ (truthy (parallel_processing (config (a_cleaner true))) = false ->
        lines = (fun ep => processed_line ep "Dry run") <$> [an_episode; nameless]).
Proof.
  apply (dry_run_counts_every_episode sonarr_down (a_cleaner true) a_manager
           [an_episode; nameless] 3 fresh); reflexivity.
Defined.

(** X26. A pool cannot be made with no worker: with parallel processing
    on and [max_workers] at 0 or below, the batch raises [ValueError]
    before any episode is processed, and nothing catches it. *)
Theorem pool_without_worker_raises (w : world) (self : MediaCleaner)
    (manager : SonarrManager) (episodes : list pyval) (total n : Z) (s : state) :
  truthy (parallel_processing (config self)) = true ->
  max_workers (config self) = PInt n ->
  n <= 0 ->
  process_episodes w self manager episodes total s = (Raise ValueError, s).
Proof.
  intros Hpar Hmax Hn. unfold process_episodes. rewrite Hpar, Hmax.
  rewrite bind_run. unfold lift. simpl.
  destruct (n <=? 0) eqn:Hle; [reflexivity|]. apply Z.leb_gt in Hle. lia.
Qed.

Lemma pool_without_worker_raises_witness :
  process_episodes scenario no_worker a_manager [E1] 0 fresh = (Raise ValueError, fresh).
Proof.
  apply (pool_without_worker_raises scenario no_worker a_manager [E1] 0 0 fresh);
    [reflexivity | reflexivity | lia].
Defined.

(** ** Timestamps *)

Lemma digit_of_char lo hi x :
  0 <= x <= 9 ->
  digit lo hi (digit_char x) = if (lo <=? x) && (x <=? hi) then Some x else None.
Proof.
  intros Hx.
  assert (Hc : x = 0 \/ x = 1 \/ x = 2 \/ x = 3 \/ x = 4 \/ x = 5 \/ x = 6 \/ x = 7
               \/ x = 8 \/ x = 9) by lia.
  repeat destruct Hc as [->|Hc]; try subst x; reflexivity.
Qed.

Lemma d1_char {A} (k : Z -> string -> option A) rest lo hi x :
  0 <= x <= 9 ->
  d1 lo hi k (String (digit_char x) rest)
  = if (lo <=? x) && (x <=? hi) then k x rest else None.
Proof.
  intros Hx. unfold d1. rewrite (digit_of_char lo hi x Hx).
  destruct ((lo <=? x) && (x <=? hi)); reflexivity.
Qed.

Lemma d2_two_digits {A} (k : Z -> string -> option A) rest lo1 hi1 lo2 hi2 n :
  0 <= n <= 99 ->
  d2 lo1 hi1 lo2 hi2 k (two_digits n rest)
  = if (lo1 <=? n / 10) && (n / 10 <=? hi1) && ((lo2 <=? n mod 10) && (n mod 10 <=? hi2))
    then k n rest else None.
Proof.
  intros Hn. unfold d2, two_digits.
  assert (Ha : 0 <= n / 10 <= 9) by (Z.div_mod_to_equations; lia).
  assert (Hb : 0 <= n mod 10 <= 9) by (Z.div_mod_to_equations; lia).
  assert (Hn10 : 10 * (n / 10) + n mod 10 = n) by (Z.div_mod_to_equations; lia).
  unfold d1 at 1. rewrite (digit_of_char lo1 hi1 (n / 10) Ha).
  destruct ((lo1 <=? n / 10) && (n / 10 <=? hi1)); simpl; [|reflexivity].
  unfold d1. rewrite (digit_of_char lo2 hi2 (n mod 10) Hb).
  destruct ((lo2 <=? n mod 10) && (n mod 10 <=? hi2)); simpl; [|reflexivity].
  by rewrite Hn10.
Qed.
(** A property of the numbers from [lo] on that holds for each of the
    first [count] of them holds for every number of that range. *)
Lemma range_cases (P : Z -> Prop) (lo : Z) (count : nat) :
  List.Forall (fun i => P (lo + Z.of_nat i)) (seq 0 count) ->
  forall n, lo <= n < lo + Z.of_nat count -> P n.
Proof.
  intros Hall n Hn. rewrite List.Forall_forall in Hall.
  replace n with (lo + Z.of_nat (Z.to_nat (n - lo))) by lia.
  apply Hall, in_seq. lia.
Qed.

Section Written.
Context {A : Type} (k : Z -> string -> option A) (rest : string) (r : A).

Lemma re_Y_written n :
  0 <= n <= 9999 -> re_Y k (four_digits n rest) = k n rest.
Proof.
  intros Hn. unfold re_Y, four_digits.
  assert (Hhi : 0 <= n / 100 <= 99) by (Z.div_mod_to_equations; lia).
  assert (Hlo : 0 <= n mod 100 <= 99) by (Z.div_mod_to_equations; lia).
  assert (Hall : forall x, 0 <= x <= 99 ->
            (0 <=? x / 10) && (x / 10 <=? 9) && ((0 <=? x mod 10) && (x mod 10 <=? 9)) = true).
  { intros x Hx. rewrite !andb_true_iff, !Z.leb_le. Z.div_mod_to_equations. lia. }
  rewrite d2_two_digits by exact Hhi. rewrite (Hall _ Hhi).
  rewrite d2_two_digits by exact Hlo. rewrite (Hall _ Hlo).
  f_equal. Z.div_mod_to_equations. lia.
Qed.

Lemma lit_here (K : string -> option A) c c' s :
  lit c c' K (String c s) = K s.
Proof. unfold lit. by rewrite Ascii.eqb_refl. Qed.

Lemma re_m_written n :
  1 <= n <= 12 -> k n rest = Some r -> re_m k (two_digits n rest) = Some r.
Proof.
  intros Hn. apply (range_cases
    (fun n => k n rest = Some r -> re_m k (two_digits n rest) = Some r) 1 12); [|lia].
  repeat first [apply List.Forall_nil | apply List.Forall_cons];
    intros Hk; vm_compute; vm_compute in Hk; rewrite Hk; reflexivity.
Qed.

Lemma re_d_written n :
  1 <= n <= 31 -> k n rest = Some r -> re_d k (two_digits n rest) = Some r.
Proof.
  intros Hn. apply (range_cases
    (fun n => k n rest = Some r -> re_d k (two_digits n rest) = Some r) 1 31); [|lia].
  repeat first [apply List.Forall_nil | apply List.Forall_cons];
    intros Hk; vm_compute; vm_compute in Hk; rewrite Hk; reflexivity.
Qed.

Lemma re_H_written n :
  0 <= n <= 23 -> k n rest = Some r -> re_H k (two_digits n rest) = Some r.
Proof.
  intros Hn. apply (range_cases
    (fun n => k n rest = Some r -> re_H k (two_digits n rest) = Some r) 0 24); [|lia].
  repeat first [apply List.Forall_nil | apply List.Forall_cons];
    intros Hk; vm_compute; vm_compute in Hk; rewrite Hk; reflexivity.
Qed.

Lemma re_M_written n :
  0 <= n <= 59 -> k n rest = Some r -> re_M k (two_digits n rest) = Some r.
Proof.
  intros Hn. apply (range_cases
    (fun n => k n rest = Some r -> re_M k (two_digits n rest) = Some r) 0 60); [|lia].
  repeat first [apply List.Forall_nil | apply List.Forall_cons];
    intros Hk; vm_compute; vm_compute in Hk; rewrite Hk; reflexivity.
Qed.

Lemma re_S_written n :
  0 <= n <= 59 -> k n rest = Some r -> re_S k (two_digits n rest) = Some r.
Proof.
  intros Hn. apply (range_cases
    (fun n => k n rest = Some r -> re_S k (two_digits n rest) = Some r) 0 60); [|lia].
  repeat first [apply List.Forall_nil | apply List.Forall_cons];
    intros Hk; vm_compute; vm_compute in Hk; rewrite Hk; reflexivity.
Qed.
End Written.

Lemma days_in_month_le_31 y m : 1 <= m <= 12 -> _days_in_month y m <= 31.
Proof.
  intros Hm.
  assert (Hc : m = 1 \/ m = 2 \/ m = 3 \/ m = 4 \/ m = 5 \/ m = 6 \/ m = 7 \/ m = 8
               \/ m = 9 \/ m = 10 \/ m = 11 \/ m = 12) by lia.
  unfold _days_in_month. destruct (_is_leap y);
    repeat destruct Hc as [->|Hc]; try subst m; vm_compute; discriminate.
Qed.

Lemma strptime_written t :
  on_calendar t -> strptime_string (written t) = Ret t.
Proof.
  destruct t as [y m d hh mi ss us]. unfold on_calendar. simpl.
  intros (Hy & Hm & Hd & Hhh & Hmi & Hss & ->).
  pose proof (days_in_month_le_31 y m Hm) as H31.
  assert (Hmatch : match_format (written (mkdatetime y m d hh mi ss 0))
                   = Some ([y; m; d; hh; mi; ss], EmptyString)).
  { unfold match_format, written. cbn [year month day hour minute second].
    rewrite re_Y_written by lia. rewrite lit_here.
    apply re_m_written; [lia|]. rewrite lit_here.
    apply re_d_written; [lia|]. rewrite (lit_here _ "T" "t").
    apply re_H_written; [lia|]. rewrite lit_here.
    apply re_M_written; [lia|]. rewrite lit_here.
    apply re_S_written; [lia|]. reflexivity. }
  unfold strptime_string. rewrite Hmatch.
  assert (Hok : (1 <=? y) && (d <=? _days_in_month y m) && (ss <=? 59) = true)
    by (rewrite !andb_true_iff, !Z.leb_le; lia).
  by rewrite Hok.
Qed.

(** X27. A timestamp of the calendar that is written in the pattern
    [YYYY-MM-DDTHH:MM:SSZ], as Sonarr writes [airDateUtc], is accepted
    and read back as it was written: the air timestamp of the episode is
    that very date and time. *)
Theorem air_timestamp_reads_what_was_written (episode : gmap string pyval)
    (t : datetime) :
  on_calendar t ->
  episode !! "airDateUtc" = Some (PStr (written t)) ->
  air_timestamp (PDict episode) = Ret t.
Proof.
  intros Ht Hair. unfold air_timestamp. simpl. rewrite Hair. simpl.
  by apply strptime_written.
Qed.

Lemma air_timestamp_reads_what_was_written_witness :
  air_timestamp (PDict (<["airDateUtc" := PStr (written midsummer)]> ∅)) = Ret midsummer.
Proof.
  apply (air_timestamp_reads_what_was_written
           (<["airDateUtc" := PStr (written midsummer)]> ∅) midsummer).
  - unfold on_calendar. vm_compute. intuition discriminate.
  - reflexivity.
Defined.

Example written_midsummer : written midsummer = "2024-06-21T18:30:05Z".
Proof. vm_compute. reflexivity. Qed.

(** ** The cutoff date *)

Lemma month_and_day_checked (leapyear : bool) n :
  0 <= n < (if leapyear then 366 else 365) -> month_and_day_ok leapyear n = true.
Proof.
  intros Hn.
  assert (Hall : forallb (fun i => month_and_day_ok leapyear (Z.of_nat i)
                                   || negb (Z.of_nat i <? (if leapyear then 366 else 365)))
                   (seq 0 366) = true)
    by (destruct leapyear; vm_compute; reflexivity).
  rewrite forallb_forall in Hall.
  specialize (Hall (Z.to_nat n)). rewrite Z2Nat.id in Hall by lia.
  assert (Hin : In (Z.to_nat n) (seq 0 366)) by (apply in_seq; destruct leapyear; lia).
  apply Hall in Hin. apply orb_true_iff in Hin as [Hok|Hout]; [exact Hok|].
  apply negb_true_iff, Z.ltb_ge in Hout. lia.
Qed.

Lemma days_before_year_split q400 q100 q4 q1 :
  0 <= q100 <= 3 -> 0 <= q4 <= 24 -> 0 <= q1 <= 3 ->
  _days_before_year (q400 * 400 + 1 + q100 * 100 + q4 * 4 + q1)
  = 146097 * q400 + 36524 * q100 + 1461 * q4 + 365 * q1.
Proof. intros. unfold _days_before_year. Z.div_mod_to_equations. lia. Qed.

Lemma is_leap_split q400 q100 q4 q1 :
  0 <= q100 <= 3 -> 0 <= q4 <= 24 -> 0 <= q1 <= 3 ->
  _is_leap (q400 * 400 + 1 + q100 * 100 + q4 * 4 + q1)
  = (q1 =? 3) && (negb (q4 =? 24) || (q100 =? 3)).
Proof.
  intros H100 H4 H1. unfold _is_leap. apply eq_true_iff_eq.
  rewrite !andb_true_iff, !orb_true_iff, !negb_true_iff, !Z.eqb_eq, !Z.eqb_neq.
  Z.div_mod_to_equations. lia.
Qed.

Lemma ord2ymd_ymd2ord n y m d :
  1 <= n ->
  _ord2ymd n = (y, m, d) ->
  _ymd2ord y m d = n
  /\ 1 <= m <= 12
  /\ 1 <= d <= _days_in_month y m
  /\ (n <= _MAXORDINAL -> 1 <= y <= 9999).
Proof.
  intros Hn. unfold _ord2ymd.
  set (n0 := n - 1).
  set (q400 := n0 / _DI400Y). set (r400 := n0 mod _DI400Y).
  set (q100 := r400 / _DI100Y). set (r100 := r400 mod _DI100Y).
  set (q4 := r100 / _DI4Y). set (r4 := r100 mod _DI4Y).
  set (q1 := r4 / 365). set (r1 := r4 mod 365).
  cbv zeta.
  assert (H400 : n0 = 146097 * q400 + r400 /\ 0 <= r400 < 146097)
    by (unfold q400, r400, _DI400Y; Z.div_mod_to_equations; lia).
  assert (H100 : r400 = 36524 * q100 + r100 /\ 0 <= r100 < 36524)
    by (unfold q100, r100, _DI100Y; Z.div_mod_to_equations; lia).
  assert (H4 : r100 = 1461 * q4 + r4 /\ 0 <= r4 < 1461)
    by (unfold q4, r4, _DI4Y; Z.div_mod_to_equations; lia).
  assert (H1 : r4 = 365 * q1 + r1 /\ 0 <= r1 < 365)
    by (unfold q1, r1; Z.div_mod_to_equations; lia).
  clearbody q400 r400 q100 r100 q4 r4 q1 r1.
  unfold _MAXORDINAL.
  destruct ((q1 =? 4) || (q100 =? 4)) eqn:Hspecial.
  - intros H; inversion H; subst y m d. clear H.
    apply orb_true_iff in Hspecial.
    assert (Hleap : _is_leap (q400 * 400 + 1 + q100 * 100 + q4 * 4 + q1 - 1) = true).
    { unfold _is_leap.
      rewrite andb_true_iff, orb_true_iff, negb_true_iff, Z.eqb_eq, Z.eqb_neq, Z.eqb_eq.
      destruct Hspecial as [Hs|Hs]; apply Z.eqb_eq in Hs; Z.div_mod_to_equations; lia. }
    unfold _ymd2ord, _days_in_month, _days_before_month, month_entry.
    rewrite Hleap. simpl.
    unfold _days_before_year.
    destruct Hspecial as [Hs|Hs]; apply Z.eqb_eq in Hs; Z.div_mod_to_equations; lia.
  - apply orb_false_iff in Hspecial as [Hq1 Hq100].
    apply Z.eqb_neq in Hq1, Hq100.
    assert (B100 : 0 <= q100 <= 3) by lia.
    assert (B4 : 0 <= q4 <= 24) by lia.
    assert (B1 : 0 <= q1 <= 3) by lia.
    set (leapyear := (q1 =? 3) && (negb (q4 =? 24) || (q100 =? 3))).
    pose proof (is_leap_split q400 q100 q4 q1 B100 B4 B1) as Hleap. fold leapyear in Hleap.
    pose proof (days_before_year_split q400 q100 q4 q1 B100 B4 B1) as Hdby.
    assert (Hr1 : 0 <= r1 < (if leapyear then 366 else 365)) by (destruct leapyear; lia).
    pose proof (month_and_day_checked leapyear r1 Hr1) as Hok.
    assert (Hmd : (if r1 <? month_entry _DAYS_BEFORE_MONTH (Z.shiftr (r1 + 50) 5)
                             + (if (2 <? Z.shiftr (r1 + 50) 5) && leapyear then 1 else 0)
                   then (q400 * 400 + 1 + q100 * 100 + q4 * 4 + q1,
                         Z.shiftr (r1 + 50) 5 - 1,
                         r1 - (month_entry _DAYS_BEFORE_MONTH (Z.shiftr (r1 + 50) 5)
                               + (if (2 <? Z.shiftr (r1 + 50) 5) && leapyear then 1 else 0)
                               - (month_entry _DAYS_IN_MONTH (Z.shiftr (r1 + 50) 5 - 1)
                                  + (if (Z.shiftr (r1 + 50) 5 - 1 =? 2) && leapyear
                                     then 1 else 0))) + 1)
                   else (q400 * 400 + 1 + q100 * 100 + q4 * 4 + q1,
                         Z.shiftr (r1 + 50) 5,
                         r1 - (month_entry _DAYS_BEFORE_MONTH (Z.shiftr (r1 + 50) 5)
                               + (if (2 <? Z.shiftr (r1 + 50) 5) && leapyear
                                  then 1 else 0)) + 1))
                  = (q400 * 400 + 1 + q100 * 100 + q4 * 4 + q1,
                     fst (month_and_day leapyear r1), snd (month_and_day leapyear r1))).
    { unfold month_and_day. cbv zeta. destruct (r1 <? _); reflexivity. }
    rewrite Hmd. intros H; inversion H; subst y m d. clear H Hmd.
    unfold month_and_day_ok in Hok. cbv zeta in Hok.
    rewrite !andb_true_iff, !Z.leb_le, Z.eqb_eq in Hok.
    destruct Hok as [[[[Hm1 Hm2] Hd1] Hd2] Hsum].
    unfold _ymd2ord, _days_in_month, _days_before_month. rewrite Hleap, Hdby.
    repeat split; try lia.
Qed.

Lemma days_before_year_succ y :
  _days_before_year (y + 1)
  = _days_before_year y + 365 + (if _is_leap y then 1 else 0).
Proof.
  unfold _days_before_year. destruct (_is_leap y) eqn:Hleap; unfold _is_leap in Hleap.
  - rewrite andb_true_iff, orb_true_iff, negb_true_iff, Z.eqb_eq, Z.eqb_neq, Z.eqb_eq in Hleap.
    Z.div_mod_to_equations. lia.
  - rewrite andb_false_iff, orb_false_iff, negb_false_iff, Z.eqb_neq, Z.eqb_eq, Z.eqb_neq in Hleap.
    Z.div_mod_to_equations. lia.
Qed.

Lemma days_before_year_mono y y' : y <= y' -> _days_before_year y <= _days_before_year y'.
Proof.
  intros Hle. replace y' with (y + Z.of_nat (Z.to_nat (y' - y))) by lia.
  induction (Z.to_nat (y' - y)) as [|k IH]; [replace (y + Z.of_nat 0) with y by lia; lia|].
  replace (y + Z.of_nat (S k)) with (y + Z.of_nat k + 1) by lia.
  rewrite days_before_year_succ. destruct (_is_leap (y + Z.of_nat k)); lia.
Qed.

Lemma month_cases m : 1 <= m <= 12 ->
  m = 1 \/ m = 2 \/ m = 3 \/ m = 4 \/ m = 5 \/ m = 6 \/ m = 7 \/ m = 8 \/ m = 9
  \/ m = 10 \/ m = 11 \/ m = 12.
Proof. lia. Qed.

Lemma day_of_year_bounds y m d :
  date_ok y m d ->
  1 <= _days_before_month y m + d <= 365 + (if _is_leap y then 1 else 0).
Proof.
  intros [Hm Hd]. unfold _days_before_month, _days_in_month in *.
  apply month_cases in Hm.
  unfold month_entry, _DAYS_IN_MONTH, _DAYS_BEFORE_MONTH in *.
  destruct (_is_leap y);
    repeat destruct Hm as [->|Hm]; try subst m; simpl in *; lia.
Qed.

Lemma later_month y m d m' :
  date_ok y m d -> 1 <= m' <= 12 -> m < m' ->
  _days_before_month y m + d <= _days_before_month y m'.
Proof.
  intros [Hm Hd] Hm' Hlt. unfold _days_before_month, _days_in_month in *.
  unfold month_entry, _DAYS_IN_MONTH, _DAYS_BEFORE_MONTH in *.
  apply month_cases in Hm. apply month_cases in Hm'.
  destruct (_is_leap y);
    repeat destruct Hm as [->|Hm]; try subst m;
    repeat destruct Hm' as [->|Hm']; try subst m'; try lia; simpl in *; lia.
Qed.

Lemma ymd2ord_before y m d y' m' d' :
  date_ok y m d -> date_ok y' m' d' ->
  date_before y m d y' m' d' -> _ymd2ord y m d < _ymd2ord y' m' d'.
Proof.
  intros Hok Hok' Hb. unfold _ymd2ord.
  pose proof (day_of_year_bounds y m d Hok) as Hdoy.
  pose proof (day_of_year_bounds y' m' d' Hok') as Hdoy'.
  destruct Hb as [Hy|[[-> Hm]|(-> & -> & Hd)]].
  - pose proof (days_before_year_mono (y + 1) y' ltac:(lia)) as Hmono.
    rewrite days_before_year_succ in Hmono. lia.
  - pose proof (later_month y' m d m' Hok (proj1 Hok') Hm). destruct Hok' as [_ Hd']. lia.
  - lia.
Qed.

Lemma ymd2ord_order y m d y' m' d' :
  date_ok y m d -> date_ok y' m' d' ->
  (_ymd2ord y m d < _ymd2ord y' m' d' -> date_before y m d y' m' d')
  /\ (_ymd2ord y m d = _ymd2ord y' m' d' -> y = y' /\ m = m' /\ d = d').
Proof.
  intros Hok Hok'.
  assert (Htri : date_before y m d y' m' d' \/ (y = y' /\ m = m' /\ d = d')
                 \/ date_before y' m' d' y m d) by (unfold date_before; lia).
  destruct Htri as [Hb|[He|Hb]].
  - pose proof (ymd2ord_before _ _ _ _ _ _ Hok Hok' Hb). split; [done | lia].
  - destruct He as (-> & -> & ->). split; [lia | done].
  - pose proof (ymd2ord_before _ _ _ _ _ _ Hok' Hok Hb). split; lia.
Qed.

Lemma minus_days_returned now n cutoff :
  minus_days now (PInt n) = Ret cutoff ->
  exists y m d,
    1 <= toordinal now - n <= _MAXORDINAL
    /\ _ord2ymd (toordinal now - n) = (y, m, d)
    /\ cutoff = mkdatetime y m d (hour now) (minute now) (second now) (microsecond now).
Proof.
  unfold minus_days. simpl.
  destruct (999999999 <? Z.abs n); [discriminate|].
  fold (toordinal now).
  destruct ((0 <? toordinal now - n) && (toordinal now - n <=? _MAXORDINAL)) eqn:Hrange;
    [|discriminate].
  apply andb_true_iff in Hrange as [Hpos Hmax].
  apply Z.ltb_lt in Hpos. apply Z.leb_le in Hmax.
  destruct (_ord2ymd (toordinal now - n)) as [[y m] d] eqn:Hymd.
  intros H; inversion H; subst cutoff; clear H.
  exists y, m, d. repeat split; [lia | done].
Qed.

Lemma toordinal_bounds t : calendar_date t -> 1 <= toordinal t <= _MAXORDINAL.
Proof.
  intros [Hy Hok]. unfold toordinal.
  assert (Hfirst : date_ok 1 1 1) by (split; [lia | vm_compute; split; discriminate]).
  assert (Hlast : date_ok 9999 12 31) by (split; [lia | vm_compute; split; discriminate]).
  assert (H1 : _ymd2ord 1 1 1 = 1) by reflexivity.
  assert (H2 : _ymd2ord 9999 12 31 = _MAXORDINAL) by reflexivity.
  pose proof Hok as [Hm Hd].
  assert (Hd31 : _days_in_month (year t) (month t) <= 31) by (by apply days_in_month_le_31).
  split.
  - destruct (Z.eq_dec (year t) 1) as [Hy1|Hy1];
      [destruct (Z.eq_dec (month t) 1) as [Hm1|Hm1];
         [destruct (Z.eq_dec (day t) 1) as [Hd1|Hd1]|]|].
    + rewrite Hy1, Hm1, Hd1. lia.
    + pose proof (ymd2ord_before 1 1 1 _ _ _ Hfirst Hok) as Hlt.
      unfold date_before in Hlt. lia.
    + pose proof (ymd2ord_before 1 1 1 _ _ _ Hfirst Hok) as Hlt.
      unfold date_before in Hlt. lia.
    + pose proof (ymd2ord_before 1 1 1 _ _ _ Hfirst Hok) as Hlt.
      unfold date_before in Hlt. lia.
  - destruct (Z.eq_dec (year t) 9999) as [Hy1|Hy1];
      [destruct (Z.eq_dec (month t) 12) as [Hm1|Hm1];
         [destruct (Z.eq_dec (day t) 31) as [Hd1|Hd1]|]|].
    + rewrite Hy1, Hm1, Hd1. lia.
    + pose proof (ymd2ord_before _ _ _ 9999 12 31 Hok Hlast) as Hlt.
      unfold date_before in Hlt. lia.
    + pose proof (ymd2ord_before _ _ _ 9999 12 31 Hok Hlast) as Hlt.
      unfold date_before in Hlt. lia.
    + pose proof (ymd2ord_before _ _ _ 9999 12 31 Hok Hlast) as Hlt.
      unfold date_before in Hlt. lia.
Qed.

Lemma before_datetime_lt a b :
  date_before (year a) (month a) (day a) (year b) (month b) (day b) ->
  datetime_lt a b = true /\ datetime_lt b a = false.
Proof.
  unfold date_before, datetime_lt, fields. cbn [lex_lt].
  intros H. split.
  - rewrite !orb_true_iff, !andb_true_iff, !Z.ltb_lt, !Z.eqb_eq. lia.
  - apply not_true_iff_false.
    rewrite !orb_true_iff, !andb_true_iff, !Z.ltb_lt, !Z.eqb_eq. lia.
Qed.

(** X28. When the cutoff [now - timedelta(days=n)] is computed, it is a
    date of the calendar with a year from 1 to 9999 whose day number is
    that of [now] less [n], at the time of day of [now]. *)
Theorem cutoff_is_threshold_days_back (now : datetime) (n : Z) (cutoff : datetime) :
  minus_days now (PInt n) = Ret cutoff ->
  toordinal cutoff = toordinal now - n
  /\ calendar_date cutoff
  /\ same_time_of_day cutoff now.
Proof.
  intros Hminus.
  destruct (minus_days_returned _ _ _ Hminus) as (y & m & d & [Hlo Hhi] & Hymd & ->).
  destruct (ord2ymd_ymd2ord _ y m d Hlo Hymd) as (Hord & Hm & Hd & Hy).
  unfold toordinal at 1, calendar_date, date_ok, same_time_of_day. simpl.
  repeat split; try done; try lia; by apply Hy.
Qed.

Lemma cutoff_is_threshold_days_back_witness :
  toordinal the_cutoff = toordinal first_of_march - 30
  /\ calendar_date the_cutoff
  /\ same_time_of_day the_cutoff first_of_march.
Proof.
  apply (cutoff_is_threshold_days_back first_of_march 30 the_cutoff).
  vm_compute. reflexivity.
Defined.

(** X29. For a current time on the calendar, the cutoff is earlier than
    the current time exactly when the threshold is positive; with a
    threshold of zero the cutoff is the current time itself. *)
Theorem cutoff_is_earlier_iff_threshold_positive (now : datetime) (n : Z)
    (cutoff : datetime) :
  calendar_date now ->
  minus_days now (PInt n) = Ret cutoff ->
  (datetime_lt cutoff now = true <-> 0 < n)
  /\ (n = 0 -> cutoff = now).
Proof.
  intros [_ Hnow] Hminus.
  destruct (minus_days_returned _ _ _ Hminus) as (y & m & d & [Hlo Hhi] & Hymd & ->).
  destruct (ord2ymd_ymd2ord _ y m d Hlo Hymd) as (Hord & Hm & Hd & _).
  assert (Hcut : date_ok y m d) by done.
  unfold toordinal in Hord.
  destruct (ymd2ord_order _ _ _ _ _ _ Hcut Hnow) as [Hlt Heq].
  destruct (ymd2ord_order _ _ _ _ _ _ Hnow Hcut) as [Hgt _].
  split; [split|].
  - intros Hbefore. destruct (Z.lt_trichotomy 0 n) as [Hn|[Hn|Hn]]; [done| |].
    + destruct Heq as (Hy & Hmo & Hdy); [lia|].
      destruct now; simpl in *; subst.
      rewrite datetime_lt_irrefl in Hbefore. discriminate.
    + destruct (before_datetime_lt now
                  (mkdatetime y m d (hour now) (minute now) (second now) (microsecond now)))
        as [_ Hnot]; [simpl; apply Hgt; lia|].
      rewrite Hnot in Hbefore. discriminate.
  - intros Hn. apply before_datetime_lt. simpl. apply Hlt. lia.
  - intros ->. destruct Heq as (Hy & Hmo & Hdy); [lia|].
    destruct now; simpl in *; by subst.
Qed.

Lemma cutoff_is_earlier_iff_threshold_positive_witness :
  (datetime_lt the_cutoff first_of_march = true <-> 0 < 30)
  /\ (30 = 0 -> the_cutoff = first_of_march).
Proof.
  apply (cutoff_is_earlier_iff_threshold_positive first_of_march 30 the_cutoff).
  - split; [simpl; lia | split; [simpl; lia | vm_compute; split; discriminate]].
  - vm_compute. reflexivity.
Defined.

(** X30. For a current time on the calendar and a threshold that is not
    negative, the cutoff exists when the threshold is below the day
    number of the current date; a threshold that reaches back to before
    the first day of the year 1 raises [OverflowError]. *)
Theorem threshold_reaching_before_year_one_overflows (now : datetime) (n : Z) :
  calendar_date now -> 0 <= n ->
  if n <? toordinal now
  then exists cutoff, minus_days now (PInt n) = Ret cutoff
  else minus_days now (PInt n) = Raise OverflowError.
Proof.
  intros Hnow Hn. pose proof (toordinal_bounds now Hnow) as [Hlo Hhi].
  unfold minus_days. simpl. fold (toordinal now). unfold _MAXORDINAL in *.
  destruct (n <? toordinal now) eqn:Hlt.
  - apply Z.ltb_lt in Hlt.
    replace (999999999 <? Z.abs n) with false by (symmetry; apply Z.ltb_ge; lia).
    replace (0 <? toordinal now - n) with true by (symmetry; apply Z.ltb_lt; lia).
    replace (toordinal now - n <=? 3652059) with true by (symmetry; apply Z.leb_le; lia).
    simpl. destruct (_ord2ymd _) as [[y m] d]. eauto.
  - apply Z.ltb_ge in Hlt.
    destruct (999999999 <? Z.abs n); [done|].
    replace (0 <? toordinal now - n) with false by (symmetry; apply Z.ltb_ge; lia).
    done.
Qed.

Lemma threshold_reaching_before_year_one_overflows_witness :
  minus_days first_of_march (PInt 1000000) = Raise OverflowError.
Proof.
  apply (threshold_reaching_before_year_one_overflows first_of_march 1000000).
  - split; [simpl; lia | split; [simpl; lia | vm_compute; split; discriminate]].
  - lia.
Defined.
